(** * A text editor with per-format load/save strategies and an observer

    Verification of the editor in [src/main.cpp]: the HTML to plain text
    converter, the paragraph counter, the three loader/saver pairs, the
    factory chosen from the file extension, the observer subject and the
    handlers of the Save action and of the [textChanged] signal.

    The program is written against Qt.  The Qt value types and the library
    functions it calls are modelled in [Module Qt], following Qt 6: a
    [QString] is a sequence of UTF-16 code units, a [QTextStream] encodes
    in UTF-8, and a device opened with [QIODevice::Text] drops the carriage
    returns it reads.  Everything after that module is a transcription of
    the program itself.

    Integers: the [int] counters of the program ([emptyCount], the result of
    [countParagraphs], [lastParagraphCount]) count lines or paragraphs of one
    string, so they are bounded by the size of that string; they are kept in
    [Z]. *)

From Stdlib Require Import String Ascii List NArith ZArith Bool Lia.
Import ListNotations.

(* ================================================================== *)
(** * Part I: definitions                                              *)
(* ================================================================== *)

(** ** Qt value types and library functions *)

Module Qt.

(** A [QChar] is one UTF-16 code unit, a [QString] a sequence of them, a
    [QByteArray] a sequence of bytes. *)
Definition QChar := N.
Definition QString := list QChar.
Definition QByteArray := list N.

(** String literals of the program (all of them ASCII). *)
Definition qs (s : string) : QString :=
  map N_of_ascii (list_ascii_of_string s).

Definition LF : QChar := 10%N.
Definition CR : QChar := 13%N.
Definition LT : QChar := 60%N.   (* '<' *)
Definition GT : QChar := 62%N.   (* '>' *)
Definition AMP : QChar := 38%N.  (* '&' *)
Definition QUOT : QChar := 34%N. (* the double quote *)

(** [QChar::isSpace]: the ASCII white space characters, NEL, NBSP and the
    Unicode separator categories Zs, Zl and Zp. *)
Definition isSpace (c : QChar) : bool :=
  ((c =? 0x20) || ((0x09 <=? c) && (c <=? 0x0D)) || (c =? 0x85) || (c =? 0xA0)
   || (c =? 0x1680) || ((0x2000 <=? c) && (c <=? 0x200A))
   || (c =? 0x2028) || (c =? 0x2029) || (c =? 0x202F) || (c =? 0x205F)
   || (c =? 0x3000))%N.

Definition isEmpty (s : QString) : bool :=
  match s with [] => true | _ :: _ => false end.

Fixpoint eqb (s t : QString) : bool :=
  match s, t with
  | [], [] => true
  | c :: s', d :: t' => (c =? d)%N && eqb s' t'
  | _, _ => false
  end.

Fixpoint skipSpaces (s : QString) : QString :=
  match s with
  | [] => []
  | c :: s' => if isSpace c then skipSpaces s' else s
  end.

(** [QString::trimmed]: white space removed from both ends. *)
Definition trimmed (s : QString) : QString :=
  rev (skipSpaces (rev (skipSpaces s))).

(** [QString::toLower].  Outside A-Z Qt follows the Unicode tables.  The
    program only tests the result against the ASCII words "br", "p", "/p",
    "txt", "html", "htm" and "bin", and what the tables do to the other
    characters never changes the outcome of these tests, so their mapping
    is left out. *)
Definition toLowerChar (c : QChar) : QChar :=
  if ((0x41 <=? c) && (c <=? 0x5A))%N then (c + 32)%N else c.

Definition toLower (s : QString) : QString := map toLowerChar s.

(** [s.startsWith(prefix)] *)
Fixpoint startsWith (s prefix : QString) {struct prefix} : bool :=
  match prefix with
  | [] => true
  | p :: prefix' =>
      match s with
      | [] => false
      | c :: s' => (c =? p)%N && startsWith s' prefix'
      end
  end.

(** [s.split(sep)] for a character [sep], keeping empty parts: the empty
    string splits into one empty part. *)
Fixpoint split (sep : QChar) (s : QString) : list QString :=
  match s with
  | [] => [[]]
  | c :: s' =>
      if (c =? sep)%N then [] :: split sep s'
      else match split sep s' with
           | part :: parts => (c :: part) :: parts
           | [] => [[c]]
           end
  end.

Inductive SplitBehavior := KeepEmptyParts | SkipEmptyParts.

(** [s.split(sep, behavior)] for a non-empty string [sep]: the occurrences
    of [sep] are found from left to right and do not overlap.  [skip]
    counts the characters of a separator still to be passed over, [cur] is
    the part read so far. *)
Fixpoint splitFrom (sep : QString) (skip : nat) (cur s : QString)
  : list QString :=
  match s with
  | [] => [cur]
  | c :: s' =>
      match skip with
      | S k => splitFrom sep k cur s'
      | O =>
          if startsWith s sep
          then cur :: splitFrom sep (length sep - 1) [] s'
          else splitFrom sep 0 (cur ++ [c]) s'
      end
  end.

Definition splitString (sep : QString) (behavior : SplitBehavior)
  (s : QString) : list QString :=
  match behavior with
  | KeepEmptyParts => splitFrom sep 0 [] s
  | SkipEmptyParts => filter (fun p => negb (isEmpty p)) (splitFrom sep 0 [] s)
  end.

(** [QString::toHtmlEscaped] *)
Definition escapeChar (c : QChar) : QString :=
  if (c =? LT)%N then qs "&lt;"
  else if (c =? GT)%N then qs "&gt;"
  else if (c =? AMP)%N then qs "&amp;"
  else if (c =? QUOT)%N then qs "&quot;"
  else [c].

Definition toHtmlEscaped (s : QString) : QString := flat_map escapeChar s.

(** [QString::remove(c)]: every occurrence of [c] removed. *)
Definition remove (c : QChar) (s : QString) : QString :=
  filter (fun x => negb (x =? c)%N) s.

(** ** UTF-16 and UTF-8 *)

Definition isHighSurrogate (c : QChar) : bool :=
  ((0xD800 <=? c) && (c <=? 0xDBFF))%N.
Definition isLowSurrogate (c : QChar) : bool :=
  ((0xDC00 <=? c) && (c <=? 0xDFFF))%N.
Definition isSurrogate (c : N) : bool :=
  ((0xD800 <=? c) && (c <=? 0xDFFF))%N.

(** [QString::isValidUtf16]: every code unit has 16 bits and every surrogate
    is half of a high/low pair. *)
Fixpoint isValidUtf16 (s : QString) : bool :=
  match s with
  | [] => true
  | c :: s' =>
      if isHighSurrogate c then
        match s' with
        | d :: s'' => isLowSurrogate d && isValidUtf16 s''
        | [] => false
        end
      else (c <? 0x10000)%N && negb (isLowSurrogate c) && isValidUtf16 s'
  end.

(** The UTF-8 bytes of the code point [u]. *)
Definition utf8Bytes (u : N) : QByteArray :=
  (if u <? 0x80 then [u]
   else if u <? 0x800 then [0xC0 + u / 64; 0x80 + u mod 64]
   else if u <? 0x10000 then
     [0xE0 + u / 4096; 0x80 + (u / 64) mod 64; 0x80 + u mod 64]
   else
     [0xF0 + u / 262144; 0x80 + (u / 4096) mod 64;
      0x80 + (u / 64) mod 64; 0x80 + u mod 64])%N.

Definition QUESTION : N := 63%N.

(** [QString::toUtf8]: a surrogate pair is one code point; a surrogate
    without its partner has no UTF-8 form and is written as '?'. *)
Fixpoint toUtf8 (s : QString) : QByteArray :=
  match s with
  | [] => []
  | c :: s' =>
      if isHighSurrogate c then
        match s' with
        | d :: s'' =>
            if isLowSurrogate d
            then utf8Bytes (0x10000 + (c - 0xD800) * 1024 + (d - 0xDC00))%N
                 ++ toUtf8 s''
            else QUESTION :: toUtf8 s'
        | [] => [QUESTION]
        end
      else if isLowSurrogate c then QUESTION :: toUtf8 s'
      else utf8Bytes c ++ toUtf8 s'
  end.

(** The UTF-16 code units of the code point [u]. *)
Definition utf16Units (u : N) : QString :=
  (if u <? 0x10000 then [u]
   else [0xD800 + (u - 0x10000) / 1024; 0xDC00 + (u - 0x10000) mod 1024])%N.

Definition isContinuation (b : N) : bool := ((0x80 <=? b) && (b <? 0xC0))%N.

Definition ReplacementCharacter : QChar := 0xFFFD%N.

(** A decoded code point is kept when it is not overlong ([least] is the
    smallest code point of its length), not a surrogate and in range. *)
Definition decoded (least u : N) : option QString :=
  if ((least <=? u) && negb (isSurrogate u) && (u <=? 0x10FFFF))%N
  then Some (utf16Units u) else None.

(** The UTF-8 decoder: a byte that starts no valid sequence becomes one
    replacement character and decoding resumes at the next byte. *)
Fixpoint decodeUtf8 (bs : QByteArray) : QString :=
  match bs with
  | [] => []
  | b :: r =>
      let bad := ReplacementCharacter :: decodeUtf8 r in
      if (b <? 0x80)%N then b :: decodeUtf8 r
      else if (b <? 0xC2)%N then bad
      else if (b <? 0xE0)%N then
        match r with
        | b1 :: r1 =>
            if isContinuation b1 then
              match decoded 0x80 ((b - 0xC0) * 64 + (b1 - 0x80))%N with
              | Some us => us ++ decodeUtf8 r1
              | None => bad
              end
            else bad
        | _ => bad
        end
      else if (b <? 0xF0)%N then
        match r with
        | b1 :: b2 :: r2 =>
            if isContinuation b1 && isContinuation b2 then
              match decoded 0x800
                      ((b - 0xE0) * 4096 + (b1 - 0x80) * 64 + (b2 - 0x80))%N with
              | Some us => us ++ decodeUtf8 r2
              | None => bad
              end
            else bad
        | _ => bad
        end
      else if (b <? 0xF5)%N then
        match r with
        | b1 :: b2 :: b3 :: r3 =>
            if isContinuation b1 && isContinuation b2 && isContinuation b3 then
              match decoded 0x10000
                      ((b - 0xF0) * 262144 + (b1 - 0x80) * 4096
                       + (b2 - 0x80) * 64 + (b3 - 0x80))%N with
              | Some us => us ++ decodeUtf8 r3
              | None => bad
              end
            else bad
        | _ => bad
        end
      else bad
  end.

Definition ByteOrderMark : QChar := 0xFEFF%N.

(** [QString::fromUtf8]: a leading UTF-8 byte order mark is passed over. *)
Definition utf8bom : QByteArray := [0xEF; 0xBB; 0xBF]%N.

Definition fromUtf8 (bytes : QByteArray) : QString :=
  if startsWith bytes utf8bom then decodeUtf8 (skipn 3 bytes)
  else decodeUtf8 bytes.

(** ** Files and text streams *)

(** What differs between hosts: whether a text-mode stream writes a line
    feed as CR LF (Windows), and how a stream that announces UTF-16 or
    UTF-32 by its byte order mark is decoded (left open). *)
Record Host := {
  crlf : bool;
  decodeDetected : QByteArray -> QString
}.

(** The files: their bytes and which paths can be opened for writing and
    for reading. *)
Record FileSystem := {
  contents : QString -> option QByteArray;
  writable : QString -> bool;
  readable : QString -> bool
}.

(** [QFile::open(ReadOnly)] followed by reading everything. *)
Definition openRead (fs : FileSystem) (path : QString) : option QByteArray :=
  if readable fs path then contents fs path else None.

(** The file system after [path] was opened [WriteOnly] (which truncates
    it) and [bytes] were written. *)
Definition written (fs : FileSystem) (path : QString) (bytes : QByteArray)
  : FileSystem :=
  {| contents := fun p => if eqb p path then Some bytes else contents fs p;
     writable := writable fs;
     readable := readable fs |}.

(** [QIODevice::readAll] of a device opened with the [Text] flag: every
    carriage return is removed. *)
Definition textModeBytes (bytes : QByteArray) : QByteArray := remove CR bytes.

Definition lineFeedToCRLF (s : QString) : QString :=
  flat_map (fun c => if (c =? LF)%N then [CR; LF] else [c]) s.

(** [QTextStream << s] on a device opened with the [Text] flag: the stream
    encodes in UTF-8 and writes no byte order mark. *)
Definition textStreamWrite (h : Host) (s : QString) : QByteArray :=
  toUtf8 (if crlf h then lineFeedToCRLF s else s).

(** Does the stream start with a UTF-32 or UTF-16 byte order mark? *)
Definition announcesUtf16or32 (bytes : QByteArray) : bool :=
  startsWith bytes [0x00; 0x00; 0xFE; 0xFF]%N
  || startsWith bytes [0xFF; 0xFE]%N
  || startsWith bytes [0xFE; 0xFF]%N.

(** [QTextStream::readAll] on a device opened with the [Text] flag: UTF-8
    unless a byte order mark says otherwise, carriage returns removed. *)
Definition textStreamReadAll (h : Host) (bytes : QByteArray) : QString :=
  remove CR (if announcesUtf16or32 bytes then decodeDetected h bytes
             else fromUtf8 bytes).

(** [QFileInfo(path).suffix()]: what follows the last '.' of the file name,
    the file name being what follows the last '/'. *)
Fixpoint afterLast (c : QChar) (s : QString) : option QString :=
  match s with
  | [] => None
  | x :: s' =>
      match afterLast c s' with
      | Some r => Some r
      | None => if (x =? c)%N then Some s' else None
      end
  end.

Definition fileName (path : QString) : QString :=
  match afterLast 47%N path with Some r => r | None => path end.

Definition suffix (path : QString) : QString :=
  match afterLast 46%N (fileName path) with Some r => r | None => [] end.

End Qt.

Import Qt.

(** ** The HTML to plain text converter *)

(** The state of the first loop of [htmlToPlain]. *)
Record Scan := { inTag : bool; tag : QString; out : QString }.

(** What the end of a tag appends to [out]: the two [if]s at the '>' . *)
Definition tagOutput (tag : QString) : QString :=
  let t := toLower (trimmed tag) in
  (if startsWith t (qs "br") || startsWith t (qs "br/") then [LF; LF] else [])
  ++ (if startsWith t (qs "p") || startsWith t (qs "/p") then [LF; LF] else []).

(** The body of the first loop, for the character [c]. *)
Definition scanChar (st : Scan) (c : QChar) : Scan :=
  if (c =? LT)%N then {| inTag := true; tag := []; out := out st |}
  else if inTag st then
    if (c =? GT)%N
    then {| inTag := false; tag := tag st; out := out st ++ tagOutput (tag st) |}
    else {| inTag := true; tag := tag st ++ [c]; out := out st |}
  else {| inTag := false; tag := tag st; out := out st ++ [c] |}.

Definition scanStart : Scan := {| inTag := false; tag := []; out := [] |}.

(** [out] after the first loop. *)
Definition stripTags (html : QString) : QString :=
  out (fold_left scanChar html scanStart).

(** The body of the second loop: the state is [(result, emptyCount)]. *)
Definition collapseLine (st : QString * Z) (ln : QString) : QString * Z :=
  let (result, emptyCount) := st in
  if isEmpty (trimmed ln) then
    let emptyCount := (emptyCount + 1)%Z in
    (if (emptyCount <=? 2)%Z then result ++ [LF] else result, emptyCount)
  else (result ++ ln ++ [LF], 0%Z).

(** [result] after the second loop. *)
Definition collapseLines (lines : list QString) : QString :=
  fst (fold_left collapseLine lines ([], 0%Z)).

Definition htmlToPlain (html : QString) : QString :=
  let out := stripTags html in
  let lines := split LF out in
  trimmed (collapseLines lines).

(** ** The paragraph counter *)

(** The loop body of [countParagraphs]: the state is [(paras, cur)]. *)
Definition paraLine (st : list QString * QString) (ln : QString)
  : list QString * QString :=
  let (paras, cur) := st in
  if isEmpty (trimmed ln) then
    if negb (isEmpty cur) then (paras ++ [cur], []) else (paras, cur)
  else
    let cur1 := if negb (isEmpty cur) then cur ++ [LF] else cur in
    (paras, cur1 ++ ln).

Definition countParagraphs (text : QString) : Z :=
  let lines := split LF text in
  let (paras, cur) := fold_left paraLine lines ([], []) in
  let paras := if negb (isEmpty cur) then paras ++ [cur] else paras in
  Z.of_nat (length paras).

(** ** Loaders, savers and factories *)

Definition TXTLoader_load (h : Host) (fs : FileSystem) (path : QString)
  : QString :=
  match openRead fs path with
  | None => []
  | Some bytes => textStreamReadAll h bytes
  end.

Definition TXTSaver_save (h : Host) (fs : FileSystem) (path text : QString)
  : bool * FileSystem :=
  if writable fs path
  then (true, written fs path (textStreamWrite h text))
  else (false, fs).

Definition HTMLLoader_load (h : Host) (fs : FileSystem) (path : QString)
  : QString :=
  match openRead fs path with
  | None => []
  | Some bytes => htmlToPlain (fromUtf8 (textModeBytes bytes))
  end.

(** Everything [HTMLSaver::save] sends to its stream for [text]. *)
Definition HTMLSaver_output (text : QString) : QString :=
  let paras := splitString [LF; LF] SkipEmptyParts text in
  qs "<html><body>" ++ [LF]
  ++ flat_map (fun p => qs "<p>" ++ toHtmlEscaped p ++ qs "</p>" ++ [LF]) paras
  ++ [LF] ++ qs "</body></html>" ++ [LF].

Definition HTMLSaver_save (h : Host) (fs : FileSystem) (path text : QString)
  : bool * FileSystem :=
  if writable fs path
  then (true, written fs path (textStreamWrite h (HTMLSaver_output text)))
  else (false, fs).

Definition BINLoader_load (h : Host) (fs : FileSystem) (path : QString)
  : QString :=
  match openRead fs path with
  | None => []
  | Some bytes => fromUtf8 bytes
  end.

Definition BINSaver_save (h : Host) (fs : FileSystem) (path text : QString)
  : bool * FileSystem :=
  if writable fs path
  then (true, written fs path (toUtf8 text))
  else (false, fs).

(** The three implementations of [IFileFactory]. *)
Inductive IFileFactory := TXTFactory | HTMLFactory | BINFactory.

(** [createLoader()->load] and [createSaver()->save] of a factory. *)
Definition load (f : IFileFactory)
  : Host -> FileSystem -> QString -> QString :=
  match f with
  | TXTFactory => TXTLoader_load
  | HTMLFactory => HTMLLoader_load
  | BINFactory => BINLoader_load
  end.

Definition save (f : IFileFactory)
  : Host -> FileSystem -> QString -> QString -> bool * FileSystem :=
  match f with
  | TXTFactory => TXTSaver_save
  | HTMLFactory => HTMLSaver_save
  | BINFactory => BINSaver_save
  end.

Definition factoryForExtension (ext : QString) : IFileFactory :=
  if eqb ext (qs "txt") then TXTFactory
  else if eqb ext (qs "html") || eqb ext (qs "htm") then HTMLFactory
  else if eqb ext (qs "bin") then BINFactory
  else TXTFactory.

(** The call every handler makes:
    [factoryForExtension(QFileInfo(path).suffix().toLower())]. *)
Definition factoryForPath (path : QString) : IFileFactory :=
  factoryForExtension (toLower (suffix path)).

(** The factory of a file's extension [ext], as the program obtains it:
    the lambda is local to [main], and each of its call sites (lines
    243-244, 258, 260 and 277) passes the suffix through [toLower()]. *)
Definition factoryForSuffix (ext : QString) : IFileFactory :=
  factoryForExtension (toLower ext).

(** ** The observer subject *)

Module Subject.

(** An [IObserver*]: an address, 0 for [nullptr]. *)
Definition IObserverPtr := N.

(** The two member functions of [IObserver]. *)
Inductive Call :=
| onParagraphsDeleted (count : Z)
| onAutoSaved (path : QString).

(** The field [obs]. *)
Definition t := list IObserverPtr.

Definition contains (obs : t) (o : IObserverPtr) : bool :=
  existsb (fun x => (x =? o)%N) obs.

Definition add (o : IObserverPtr) (obs : t) : t :=
  if negb (o =? 0)%N && negb (contains obs o) then obs ++ [o] else obs.

Definition remove (o : IObserverPtr) (obs : t) : t :=
  filter (fun x => negb (x =? o)%N) obs.

(** The calls a notification makes, in the order it makes them. *)
Definition notifyDeleted (n : Z) (obs : t) : list (IObserverPtr * Call) :=
  map (fun o => (o, onParagraphsDeleted n)) obs.

Definition notifySaved (p : QString) (obs : t) : list (IObserverPtr * Call) :=
  map (fun o => (o, onAutoSaved p)) obs.

End Subject.

(** ** The editor: state and handlers *)

(** What the user is shown, in order: the observer calls (the observer of
    the program answers each with an information box) and the warning
    boxes. *)
Inductive Shown :=
| Notified (call : Subject.IObserverPtr * Subject.Call)
| Warning (title text : QString).

(** The variables of [main] that the handlers capture; [txt] is the text
    of the edit widget. *)
Record Editor := {
  txt : QString;
  currentPath : QString;
  currentFactory : option IFileFactory;
  subject : Subject.t;
  lastParagraphCount : Z
}.

(** The world outside the editor: the files and what was shown. *)
Record World := {
  files : FileSystem;
  shown : list Shown
}.

Definition show (w : World) (l : list Shown) : World :=
  {| files := files w; shown := shown w ++ l |}.

(** [if (!currentFactory) currentFactory = factoryForExtension(...)] *)
Definition ensureFactory (e : Editor) : Editor :=
  match currentFactory e with
  | Some _ => e
  | None =>
      {| txt := txt e; currentPath := currentPath e;
         currentFactory := Some (factoryForPath (currentPath e));
         subject := subject e; lastParagraphCount := lastParagraphCount e |}
  end.

Definition activeFactory (e : Editor) : IFileFactory :=
  match currentFactory e with
  | Some f => f
  | None => factoryForPath (currentPath e)
  end.

Definition setLastParagraphCount (n : Z) (e : Editor) : Editor :=
  {| txt := txt e; currentPath := currentPath e;
     currentFactory := currentFactory e; subject := subject e;
     lastParagraphCount := n |}.

(** "Помилка" and "Не вдалося зберегти файл." *)
Definition warningTitle : QString :=
  [0x41F; 0x43E; 0x43C; 0x438; 0x43B; 0x43A; 0x430]%N.
Definition warningText : QString :=
  [0x41D; 0x435; 0x20; 0x432; 0x434; 0x430; 0x43B; 0x43E; 0x441; 0x44F; 0x20;
   0x437; 0x431; 0x435; 0x440; 0x435; 0x433; 0x442; 0x438; 0x20;
   0x444; 0x430; 0x439; 0x43B; 0x2E]%N.

(** The handler of the Save action.  [fname] is what the save dialog
    returns when it is asked (empty when the user cancels). *)
Definition actSave_triggered (h : Host) (fname : QString)
  (e : Editor) (w : World) : Editor * World :=
  let chosen :=
    if isEmpty (currentPath e) then
      if isEmpty fname then None
      else Some {| txt := txt e; currentPath := fname;
                   currentFactory := Some (factoryForPath fname);
                   subject := subject e;
                   lastParagraphCount := lastParagraphCount e |}
    else Some e in
  match chosen with
  | None => (e, w)
  | Some e1 =>
      let e2 := ensureFactory e1 in
      let (ok, fs) := save (activeFactory e2) h (files w) (currentPath e2) (txt e2) in
      if negb ok
      then (e2, show {| files := fs; shown := shown w |}
                     [Warning warningTitle warningText])
      else (e2, show {| files := fs; shown := shown w |}
                     (map Notified (Subject.notifySaved (currentPath e2) (subject e2))))
  end.

(** The handler of [QTextEdit::textChanged]. *)
Definition textChanged (h : Host) (e : Editor) (w : World) : Editor * World :=
  let text := txt e in
  let curCount := countParagraphs text in
  if (curCount <? lastParagraphCount e)%Z then
    let deleted := (lastParagraphCount e - curCount)%Z in
    (setLastParagraphCount curCount e,
     show w (map Notified (Subject.notifyDeleted deleted (subject e))))
  else if (curCount >? lastParagraphCount e)%Z then
    if negb (isEmpty (currentPath e)) then
      let e1 := ensureFactory e in
      let (_, fs) := save (activeFactory e1) h (files w) (currentPath e1) text in
      (setLastParagraphCount curCount e1,
       show {| files := fs; shown := shown w |}
            (map Notified (Subject.notifySaved (currentPath e1) (subject e1))))
    else (setLastParagraphCount curCount e, w)
  else (setLastParagraphCount curCount e, w).

(** The event TextChanged(newText): the widget holds [newText] and emits
    the signal. *)
Definition setText (newText : QString) (e : Editor) : Editor :=
  {| txt := newText; currentPath := currentPath e;
     currentFactory := currentFactory e; subject := subject e;
     lastParagraphCount := lastParagraphCount e |}.

Definition onTextChanged (h : Host) (newText : QString)
  (e : Editor) (w : World) : Editor * World :=
  textChanged h (setText newText e) w.

(** ** Definitions that follow the spec's words *)

(** The spec's words: a line is blank iff it is empty after trimming
    surrounding white space; a paragraph is a maximal run of consecutive
    non-blank lines.  A maximal run begins at every non-blank line that is
    the first line or follows a blank line. *)
Definition blankLine (ln : QString) : bool := isEmpty (trimmed ln).

Fixpoint runStarts (prevBlank : bool) (lines : list QString) : nat :=
  match lines with
  | [] => 0
  | ln :: rest =>
      (if prevBlank && negb (blankLine ln) then 1 else 0)
      + runStarts (blankLine ln) rest
  end.

Definition maximalRuns (lines : list QString) : nat := runStarts true lines.

(** A letter-case variant of a string: the same length, and at every
    position the same character or the two cases of one ASCII letter. *)
Definition isUpper (c : QChar) : bool := ((0x41 <=? c) && (c <=? 0x5A))%N.

Definition sameLetter (c d : QChar) : Prop :=
  c = d \/ (isUpper c = true /\ d = (c + 32)%N)
        \/ (isUpper d = true /\ c = (d + 32)%N).

Definition caseVariant (e e' : QString) : Prop := Forall2 sameLetter e e'.

(** The bytes a saver of the factory [f] writes for [text]. *)
Definition savedBytes (f : IFileFactory) (h : Host) (text : QString)
  : QByteArray :=
  match f with
  | TXTFactory => textStreamWrite h text
  | HTMLFactory => textStreamWrite h (HTMLSaver_output text)
  | BINFactory => toUtf8 text
  end.

(** The number of places of [s] where [pat] occurs. *)
Fixpoint occurrences (pat s : QString) : nat :=
  match s with
  | [] => 0
  | _ :: s' => (if startsWith s pat then 1 else 0) + occurrences pat s'
  end.

(** [parts] joined by [sep]. *)
Fixpoint join (sep : QString) (parts : list QString) : QString :=
  match parts with
  | [] => []
  | [p] => p
  | p :: rest => p ++ sep ++ join sep rest
  end.

(** ** Auxiliary definitions of the proofs *)

(** For every line of [s], whether it is blank. *)
Definition lineFlags (s : QString) : list bool := map blankLine (split LF s).

(** [runStarts] on the flags. *)
Fixpoint flagRuns (prevBlank : bool) (fl : list bool) : nat :=
  match fl with
  | [] => 0
  | b :: rest => (if prevBlank && negb b then 1 else 0) + flagRuns b rest
  end.

(** What the second loop of [htmlToPlain] appends for [lines] when it
    starts with [emptyCount], and the same on the flags. *)
Fixpoint collapsePieces (emptyCount : Z) (lines : list QString) : QString :=
  match lines with
  | [] => []
  | ln :: rest =>
      if blankLine ln then
        (if (emptyCount + 1 <=? 2)%Z then [LF] else [])
        ++ collapsePieces (emptyCount + 1) rest
      else ln ++ [LF] ++ collapsePieces 0 rest
  end.

Fixpoint collapseFlags (emptyCount : Z) (fl : list bool) : list bool :=
  match fl with
  | [] => []
  | true :: rest =>
      (if (emptyCount + 1 <=? 2)%Z then [true] else [])
      ++ collapseFlags (emptyCount + 1) rest
  | false :: rest => false :: collapseFlags 0 rest
  end.

(** Are there three blank lines in a row? *)
Fixpoint threeBlank (fl : list bool) : bool :=
  match fl with
  | [] => false
  | b :: rest =>
      (b && match rest with b2 :: b3 :: _ => b2 && b3 | _ => false end)
      || threeBlank rest
  end.

(** Is the first loop of [htmlToPlain] outside a tag after [u]? *)
Definition closed (u : QString) : Prop :=
  inTag (fold_left scanChar u scanStart) = false.

(** The paragraph counts of [parts], added up. *)
Definition totalParagraphs (parts : list QString) : Z :=
  fold_right Z.add 0%Z (map countParagraphs parts).

(** What [HTMLSaver::save] writes for one paragraph, and what the first
    loop of [htmlToPlain] makes of it. *)
Definition paragraphElement (p : QString) : QString :=
  qs "<p>" ++ toHtmlEscaped p ++ qs "</p>" ++ [LF].

Definition paragraphText (p : QString) : QString :=
  [LF; LF] ++ toHtmlEscaped p ++ [LF; LF] ++ [LF].

(** Is a paragraph being read in [countParagraphs]? *)
Definition open (cur : QString) : nat := if isEmpty cur then 0 else 1.

(** Linear arithmetic with division by constants, and the comparisons of a
    goal decided by it. *)
Ltac divlia := zify; Z.to_euclidean_division_equations; lia.

Ltac decide_tests :=
  repeat match goal with
    | |- context [(?a <? ?b)%N] =>
        first [ rewrite (proj2 (N.ltb_lt a b)) by lia
              | rewrite (proj2 (N.ltb_ge a b)) by lia ]
    | |- context [(?a <=? ?b)%N] =>
        first [ rewrite (proj2 (N.leb_le a b)) by lia
              | rewrite (proj2 (N.leb_gt a b)) by lia ]
    end.

(** ** Sample hosts, files and editors used by the examples *)

Definition unixHost : Host :=
  {| crlf := false; decodeDetected := fun _ => [] |}.

(** No file yet; every path can be written and read. *)
Definition openDisk : FileSystem :=
  {| contents := fun _ => None;
     writable := fun _ => true;
     readable := fun _ => true |}.

(** No path can be opened for writing. *)
Definition readOnlyDisk : FileSystem :=
  {| contents := fun _ => None;
     writable := fun _ => false;
     readable := fun _ => true |}.

(** The editor after "one" was opened from f.txt, with one observer. *)
Definition editorWithFile : Editor :=
  {| txt := qs "one"; currentPath := qs "f.txt";
     currentFactory := Some TXTFactory; subject := [1%N];
     lastParagraphCount := 1 |}.

Definition oneTwo : QString := qs "one" ++ [LF; LF] ++ qs "two".

(** The editor after "one" was opened from page.html: the factory in use
    is the markup factory. *)
Definition editorWithPage : Editor :=
  {| txt := qs "one"; currentPath := qs "page.html";
     currentFactory := Some HTMLFactory; subject := [1%N];
     lastParagraphCount := 1 |}.

(** An editor with the path notes.bin and no factory yet. *)
Definition editorWithoutFactory : Editor :=
  {| txt := qs "one"; currentPath := qs "notes.bin";
     currentFactory := None; subject := [1%N];
     lastParagraphCount := 1 |}.

(** What [HTMLSaver] writes for [oneTwo]. *)
Definition oneTwoDocument : QString :=
  qs "<html><body>" ++ [LF] ++ qs "<p>one</p>" ++ [LF]
  ++ qs "<p>two</p>" ++ [LF] ++ [LF] ++ qs "</body></html>" ++ [LF].

(** "Привіт" followed by a line feed and U+1F600 (a surrogate pair). *)
Definition greeting : QString :=
  [0x41F; 0x440; 0x438; 0x432; 0x456; 0x442; 0x0A; 0xD83D; 0xDE00]%N.

(** "a", carriage return, line feed, "b". *)
Definition dosLines : QString := qs "a" ++ [CR; LF] ++ qs "b".

(** A high surrogate with no low surrogate after it, then "a". *)
Definition halfPair : QString := [0xD83D; 0x61]%N.

(** U+FEFF, then "a". *)
Definition markedText : QString := [ByteOrderMark; 0x61%N].

Definition windowsHost : Host :=
  {| crlf := true; decodeDetected := fun _ => [] |}.

(** ** The Open action *)

(** The handler of the Open action.  [fname] is what the open dialog
    returns (empty when the user cancels); [shownAs content] is what
    [toPlainText] returns once [setPlainText(content)] was called (the
    widget turns every kind of line break into a line feed; the function
    is left open).  [setPlainText] emits [textChanged], so the handler of
    that signal runs before [currentPath] and [lastParagraphCount] are
    assigned. *)
Definition actOpen_triggered (h : Host) (shownAs : QString -> QString)
  (fname : QString) (e : Editor) (w : World) : Editor * World :=
  if isEmpty fname then (e, w)
  else
    let ext := toLower (suffix fname) in
    let factory := factoryForExtension ext in
    let content := load factory h (files w) fname in
    let e1 := {| txt := shownAs content; currentPath := currentPath e;
                 currentFactory := Some factory; subject := subject e;
                 lastParagraphCount := lastParagraphCount e |} in
    let (e2, w2) := textChanged h e1 w in
    ({| txt := txt e2; currentPath := fname;
        currentFactory := currentFactory e2; subject := subject e2;
        lastParagraphCount := countParagraphs content |}, w2).

(** The variables of [main] when the event loop starts: an empty edit
    widget, no path, no factory, the message observer (at the address
    [msgObs]) registered. *)
Definition initialEditor (msgObs : Subject.IObserverPtr) : Editor :=
  {| txt := []; currentPath := []; currentFactory := None;
     subject := Subject.add msgObs [];
     lastParagraphCount := countParagraphs [] |}.

(** Is [x] a warning box? *)
Definition isWarning (x : Shown) : bool :=
  match x with Warning _ _ => true | Notified _ => false end.

(** The path and the factory the Save action uses: the ones of the
    editor, or those of the dialog's answer when the editor has no path. *)
Definition savePath (fname : QString) (e : Editor) : QString :=
  if isEmpty (currentPath e) then fname else currentPath e.

Definition saveFactory (fname : QString) (e : Editor) : IFileFactory :=
  if isEmpty (currentPath e) then factoryForPath fname else activeFactory e.

(** A disk on which g.bin holds the two paragraphs of [oneTwo]. *)
Definition diskWithTwo : FileSystem :=
  written openDisk (qs "g.bin") (toUtf8 oneTwo).

(** The number of non-blank lines among the flags. *)
Fixpoint textLines (fl : list bool) : nat :=
  match fl with
  | [] => 0
  | b :: rest => (if b then 0 else 1) + textLines rest
  end.

(** The sizes of the lines of a text, each with its line feed. *)
Definition linesSize (lines : list QString) : nat :=
  fold_right (fun ln n => (length ln + 1 + n)%nat) 0%nat lines.

(** What the first loop of [htmlToPlain] has read of a tag it is in. *)
Definition pending (st : Scan) : nat :=
  if inTag st then 1 + length (tag st) else 0.

Definition SLASH : QChar := 47%N.
Definition DOT : QChar := 46%N.

(** The document of [HTMLSaver::save] for the paragraphs [parts]. *)
Definition htmlDocument (parts : list QString) : QString :=
  qs "<html><body>" ++ [LF]
  ++ flat_map paragraphElement parts
  ++ [LF] ++ qs "</body></html>" ++ [LF].

(** A blank line that is empty (a line of white space is blank without
    being empty). *)
Definition emptyIfBlank (ln : QString) : Prop :=
  blankLine ln = true -> ln = [].

(** The lines of a text written out again, each followed by a line feed. *)
Definition unlines (lines : list QString) : QString :=
  flat_map (fun ln => ln ++ [LF]) lines.

(* ================================================================== *)
(** * Part II: lemmas and theorems                                     *)
(* ================================================================== *)

(** ** White space and blank lines *)

Lemma skipSpaces_nil_iff (s : QString) :
  skipSpaces s = [] <-> forallb isSpace s = true.
Proof.
  induction s as [|c s IH]; simpl; [tauto|].
  destruct (isSpace c); simpl; [exact IH|].
  split; discriminate.
Qed.

Lemma blankLine_forallb (ln : QString) : blankLine ln = forallb isSpace ln.
Proof.
  unfold blankLine, trimmed.
  destruct (forallb isSpace ln) eqn:E.
  - apply skipSpaces_nil_iff in E. rewrite E. reflexivity.
  - destruct (skipSpaces ln) as [|c r] eqn:E1.
    + apply skipSpaces_nil_iff in E1. congruence.
    + assert (Hc : isSpace c = false).
      { clear E. induction ln as [|d ln IH]; simpl in E1; [discriminate|].
        destruct (isSpace d) eqn:Ed; [auto|]. congruence. }
      simpl. destruct (skipSpaces (rev r ++ [c])) as [|x y] eqn:E2.
      * apply skipSpaces_nil_iff in E2. rewrite forallb_app in E2. simpl in E2.
        rewrite Hc, andb_false_r in E2. discriminate.
      * destruct (rev (x :: y)) eqn:E3; [|reflexivity].
        apply (f_equal (@rev _)) in E3. rewrite rev_involutive in E3.
        discriminate.
Qed.


(** ** The paragraph counter counts maximal runs *)

Lemma paraLine_blank paras cur ln :
  blankLine ln = true ->
  paraLine (paras, cur) ln =
  if isEmpty cur then (paras, cur) else (paras ++ [cur], []).
Proof.
  unfold paraLine, blankLine. intros ->. destruct (isEmpty cur); reflexivity.
Qed.

Lemma paraLine_text paras cur ln :
  blankLine ln = false ->
  exists cur', paraLine (paras, cur) ln = (paras, cur') /\ isEmpty cur' = false.
Proof.
  unfold paraLine, blankLine. intros E. rewrite E.
  eexists; split; [reflexivity|].
  destruct ln as [|c ln]; [discriminate|].
  destruct (negb (isEmpty cur)); [destruct cur | destruct cur]; reflexivity.
Qed.

Lemma paraLine_runs (lines : list QString) :
  forall st,
    (length (fst (fold_left paraLine lines st))
     + open (snd (fold_left paraLine lines st)) =
     length (fst st) + open (snd st) + runStarts (isEmpty (snd st)) lines)%nat.
Proof.
  induction lines as [|ln lines IH]; intros [paras cur];
    cbn [fold_left runStarts].
  - simpl. lia.
  - rewrite IH. cbn [fst snd]. destruct (blankLine ln) eqn:Hb.
    + rewrite (paraLine_blank _ _ _ Hb), andb_false_r.
      unfold open. destruct (isEmpty cur) eqn:Hc; cbn [fst snd].
      * rewrite Hc. reflexivity.
      * rewrite length_app. simpl. lia.
    + destruct (paraLine_text paras cur _ Hb) as (cur' & -> & Hne).
      cbn [fst snd]. unfold open. rewrite Hne.
      destruct (isEmpty cur); simpl; lia.
Qed.

Lemma countParagraphs_runs (text : QString) :
  countParagraphs text = Z.of_nat (maximalRuns (split LF text)).
Proof.
  unfold countParagraphs, maximalRuns.
  pose proof (paraLine_runs (split LF text) ([], [])) as H. revert H.
  destruct (fold_left paraLine (split LF text) ([], [])) as [paras cur].
  cbn [fst snd]. intros H. f_equal. simpl in H. rewrite <- H. unfold open.
  destruct (isEmpty cur); simpl; [lia|]. rewrite length_app. simpl. lia.
Qed.

(** ** C2: the paragraph counter *)

Lemma runStarts_blank (lines : list QString) :
  (forall ln, In ln lines -> blankLine ln = true) ->
  forall b, runStarts b lines = 0%nat.
Proof.
  induction lines as [|ln lines IH]; intros H b; simpl; [reflexivity|].
  rewrite (H ln (or_introl eq_refl)), andb_false_r.
  apply IH. intros x Hx. apply H. right. exact Hx.
Qed.

(** C2: [countParagraphs] is a function of its argument that returns the
    number of maximal runs of consecutive non-blank lines of the text (a
    line is blank iff it is empty after trimming); it returns 0 for the
    empty string and for a text whose lines are all blank, 2 for "a\n\nb"
    and 2 for "a\nb\n\n\n\nc". *)
Theorem countParagraphs_counts_maximal_runs :
  (forall text,
      countParagraphs text = Z.of_nat (maximalRuns (split LF text)))
  /\ countParagraphs [] = 0%Z
  /\ (forall text,
         (forall ln, In ln (split LF text) -> blankLine ln = true) ->
         countParagraphs text = 0%Z)
  /\ countParagraphs (qs "a" ++ [LF; LF] ++ qs "b") = 2%Z
  /\ countParagraphs (qs "a" ++ [LF] ++ qs "b" ++ [LF; LF; LF; LF] ++ qs "c")
     = 2%Z.
Proof.
  split; [exact countParagraphs_runs|].
  split; [reflexivity|].
  split; [|split; reflexivity].
  intros text H. rewrite countParagraphs_runs. unfold maximalRuns.
  rewrite (runStarts_blank _ H). reflexivity.
Qed.

Lemma countParagraphs_counts_maximal_runs_witness :
  countParagraphs (qs " " ++ [LF] ++ [9%N]) = 0%Z.
Proof.
  apply (proj1 (proj2 (proj2 countParagraphs_counts_maximal_runs))).
  simpl. intros ln [<-|[<-|[]]]; reflexivity.
Defined.

(** ** C8: the observer subject *)

Lemma contains_In (obs : Subject.t) (o : Subject.IObserverPtr) :
  Subject.contains obs o = true <-> In o obs.
Proof.
  unfold Subject.contains. rewrite existsb_exists. split.
  - intros (x & Hx & E). apply N.eqb_eq in E. subst. exact Hx.
  - intros H. exists o. split; [exact H|apply N.eqb_refl].
Qed.

Lemma add_NoDup (o : Subject.IObserverPtr) (obs : Subject.t) :
  NoDup obs -> NoDup (Subject.add o obs).
Proof.
  intros H. unfold Subject.add.
  destruct (negb (o =? 0)%N); simpl; [|exact H].
  destruct (Subject.contains obs o) eqn:E; simpl; [exact H|].
  apply NoDup_app; [exact H | repeat constructor; intros [] | ].
  intros x Hx [<-|[]]. apply contains_In in Hx. congruence.
Qed.



(** ** C3: the factory chosen from the extension *)

Lemma eqb_eq (s t : QString) : eqb s t = true <-> s = t.
Proof.
  revert t. induction s as [|c s IH]; intros [|d t]; simpl;
    try (split; [discriminate|congruence]); [tauto|].
  rewrite andb_true_iff, N.eqb_eq, IH. split.
  - intros [-> ->]. reflexivity.
  - intros E. injection E as -> ->. auto.
Qed.

Lemma eqb_neq (s t : QString) : eqb s t = false <-> s <> t.
Proof.
  rewrite <- eqb_eq. destruct (eqb s t); split; congruence.
Qed.

Lemma toLowerChar_sameLetter (c d : QChar) :
  sameLetter c d -> toLowerChar c = toLowerChar d.
Proof.
  unfold sameLetter, toLowerChar, isUpper.
  intros [->|[[H ->]|[H ->]]]; [reflexivity| |]; rewrite H;
    apply andb_true_iff in H; destruct H as [H1 H2];
    apply N.leb_le in H1, H2;
    match goal with |- context [if ?b then _ else _] =>
      destruct b eqn:E; [|reflexivity] end;
    apply andb_true_iff in E; destruct E as [_ E]; apply N.leb_le in E; lia.
Qed.

Lemma toLower_caseVariant (e e' : QString) :
  caseVariant e e' -> toLower e = toLower e'.
Proof.
  induction 1 as [|c d e e' H _ IH]; simpl; [reflexivity|].
  rewrite (toLowerChar_sameLetter _ _ H), IH. reflexivity.
Qed.

(** Every character is a letter-case variant of its lower-case form. *)
Lemma sameLetter_toLowerChar (c : QChar) : sameLetter c (toLowerChar c).
Proof.
  unfold sameLetter, toLowerChar, isUpper.
  destruct ((0x41 <=? c) && (c <=? 0x5A))%N; [right; left|left]; auto.
Qed.

Lemma caseVariant_toLower (e : QString) : caseVariant e (toLower e).
Proof.
  induction e as [|c e IH]; constructor;
    [apply sameLetter_toLowerChar|exact IH].
Qed.

(** A string is a letter-case variant of a lower-case string exactly when
    lower-casing it gives that string. *)
Lemma caseVariant_lower (e l : QString) :
  toLower l = l -> (caseVariant e l <-> toLower e = l).
Proof.
  intros Hl. split.
  - intros H. rewrite (toLower_caseVariant _ _ H). exact Hl.
  - intros <-. apply caseVariant_toLower.
Qed.

(** The lambda on its own compares the string as it is: the case folding
    is done at its call sites, not inside it. *)
Lemma factoryForExtension_is_case_sensitive :
  caseVariant (qs "HTML") (qs "html")
  /\ factoryForExtension (qs "HTML") <> factoryForExtension (qs "html").
Proof.
  split; [|discriminate].
  repeat constructor; right; left; split; reflexivity.
Qed.

Lemma factoryForSuffix_HTML (e : QString) :
  factoryForSuffix e = HTMLFactory
  <-> caseVariant e (qs "html") \/ caseVariant e (qs "htm").
Proof.
  rewrite !caseVariant_lower by reflexivity.
  unfold factoryForSuffix, factoryForExtension.
  destruct (eqb (toLower e) (qs "txt")) eqn:E1.
  - apply eqb_eq in E1. rewrite E1.
    split; [discriminate|intros [H|H]; discriminate H].
  - destruct (eqb (toLower e) (qs "html")) eqn:E2;
      [apply eqb_eq in E2; cbn [orb]; tauto|].
    destruct (eqb (toLower e) (qs "htm")) eqn:E3;
      [apply eqb_eq in E3; cbn [orb]; tauto|].
    apply eqb_neq in E2, E3. cbn [orb].
    destruct (eqb (toLower e) (qs "bin"));
      (split; [discriminate|tauto]).
Qed.

Lemma factoryForSuffix_BIN (e : QString) :
  factoryForSuffix e = BINFactory <-> caseVariant e (qs "bin").
Proof.
  rewrite caseVariant_lower by reflexivity.
  unfold factoryForSuffix, factoryForExtension.
  destruct (eqb (toLower e) (qs "txt")) eqn:E1.
  - apply eqb_eq in E1. rewrite E1. split; discriminate.
  - destruct (eqb (toLower e) (qs "html")) eqn:E2.
    + apply eqb_eq in E2. rewrite E2. split; discriminate.
    + destruct (eqb (toLower e) (qs "htm")) eqn:E3.
      * apply eqb_eq in E3. rewrite E3. split; discriminate.
      * cbn [orb]. destruct (eqb (toLower e) (qs "bin")) eqn:E4.
        -- apply eqb_eq in E4. tauto.
        -- apply eqb_neq in E4. split; [discriminate|tauto].
Qed.

(** C3: the factory the program obtains for a file's extension is a total
    function of the extension that does not depend on letter case.  "txt"
    gives the plain strategy, "html" and "htm" the markup strategy, "bin"
    the raw strategy, and so do their letter-case variants and only they;
    every other extension, the empty one included, gives the plain
    strategy.  An extension and any letter-case variant of it get the same
    strategy: "TXT", "HTML" and "Bin" get what "txt", "html" and "bin"
    get.  This is the factory of every path the handlers look at. *)
Theorem factoryForSuffix_case_insensitive :
  factoryForSuffix (qs "txt") = TXTFactory
  /\ factoryForSuffix (qs "html") = HTMLFactory
  /\ factoryForSuffix (qs "htm") = HTMLFactory
  /\ factoryForSuffix (qs "bin") = BINFactory
  /\ factoryForSuffix [] = TXTFactory
  /\ (forall e, caseVariant e (qs "txt") -> factoryForSuffix e = TXTFactory)
  /\ (forall e,
         factoryForSuffix e = HTMLFactory
         <-> caseVariant e (qs "html") \/ caseVariant e (qs "htm"))
  /\ (forall e, factoryForSuffix e = BINFactory <-> caseVariant e (qs "bin"))
  /\ (forall e,
         ~ caseVariant e (qs "html") -> ~ caseVariant e (qs "htm") ->
         ~ caseVariant e (qs "bin") ->
         factoryForSuffix e = TXTFactory)
  /\ (forall e e',
         caseVariant e e' -> factoryForSuffix e = factoryForSuffix e')
  /\ factoryForSuffix (qs "TXT") = factoryForSuffix (qs "txt")
  /\ factoryForSuffix (qs "HTML") = factoryForSuffix (qs "html")
  /\ factoryForSuffix (qs "Bin") = factoryForSuffix (qs "bin")
  /\ (forall path, factoryForPath path = factoryForSuffix (suffix path)).
Proof.
  split; [reflexivity|]. split; [reflexivity|]. split; [reflexivity|].
  split; [reflexivity|]. split; [reflexivity|].
  split.
  { intros e H. apply caseVariant_lower in H; [|reflexivity].
    unfold factoryForSuffix. rewrite H. reflexivity. }
  split; [exact factoryForSuffix_HTML|].
  split; [exact factoryForSuffix_BIN|].
  split.
  { intros e H1 H2 H3. destruct (factoryForSuffix e) eqn:E; [reflexivity| |].
    - apply factoryForSuffix_HTML in E. tauto.
    - apply factoryForSuffix_BIN in E. tauto. }
  split.
  { intros e e' H. unfold factoryForSuffix.
    rewrite (toLower_caseVariant _ _ H). reflexivity. }
  repeat split.
Qed.

Lemma factoryForSuffix_case_insensitive_witness :
  factoryForSuffix (qs "HtM") = factoryForSuffix (qs "htm")
  /\ factoryForSuffix (qs "HTML") = HTMLFactory
  /\ factoryForSuffix (qs "png") = TXTFactory.
Proof.
  destruct factoryForSuffix_case_insensitive
    as (_ & _ & _ & _ & _ & _ & Hh & Hb & Ho & Hv & _).
  assert (V : forall a b : QString, toLower a = toLower b -> toLower b = b ->
                                    caseVariant a b).
  { intros a b E L. rewrite <- L, <- E. apply caseVariant_toLower. }
  split; [|split].
  - apply (Hv (qs "HtM") (qs "htm")). apply V; reflexivity.
  - apply (Hh (qs "HTML")). left. apply V; reflexivity.
  - apply (Ho (qs "png")); intros H;
      (apply caseVariant_lower in H; [discriminate H|reflexivity]).
Defined.

(** ** C1 and C5: the handlers *)

Lemma save_writable (f : IFileFactory) (h : Host) (fs : FileSystem)
  (path text : QString) :
  writable fs path = true ->
  save f h fs path text = (true, written fs path (savedBytes f h text)).
Proof.
  intros H. destruct f; simpl;
    unfold TXTSaver_save, HTMLSaver_save, BINSaver_save; rewrite H; reflexivity.
Qed.

Lemma save_unwritable (f : IFileFactory) (h : Host) (fs : FileSystem)
  (path text : QString) :
  writable fs path = false -> save f h fs path text = (false, fs).
Proof.
  intros H. destruct f; simpl;
    unfold TXTSaver_save, HTMLSaver_save, BINSaver_save; rewrite H; reflexivity.
Qed.

Lemma written_contents (fs : FileSystem) (path : QString) (bytes : QByteArray) :
  contents (written fs path bytes) path = Some bytes.
Proof.
  simpl. rewrite (proj2 (eqb_eq path path) eq_refl). reflexivity.
Qed.

Lemma activeFactory_ensureFactory (e : Editor) :
  activeFactory (ensureFactory e) = activeFactory e
  /\ currentPath (ensureFactory e) = currentPath e
  /\ subject (ensureFactory e) = subject e
  /\ txt (ensureFactory e) = txt e
  /\ lastParagraphCount (ensureFactory e) = lastParagraphCount e.
Proof.
  unfold ensureFactory, activeFactory.
  destruct (currentFactory e) eqn:E; simpl; rewrite ?E; repeat split.
Qed.

(** C1: on TextChanged(newText), with [c] the paragraph count of the new
    text and [b] the stored count: if [c < b] the observers are notified of
    [b - c] deleted paragraphs and the files are left alone; if [c > b] and
    a path is set, the saver of the strategy in use is run on the path and
    the new text (so a writable path then holds the bytes of that format)
    and the observers are notified of the saved path; if [c > b] and no path
    is set, or if [c = b], nothing is written and nothing is shown; in every
    case the stored count becomes [c].  The strategy in use is the factory
    held in [currentFactory]; only when there is none is it the factory of
    the path's lower-cased suffix, which the handler then stores.  In the
    branches that do not save, [currentFactory] is left as it was. *)
Theorem textChanged_dispatch (h : Host) (newText : QString)
  (e : Editor) (w : World) :
  let c := countParagraphs newText in
  let b := lastParagraphCount e in
  let e' := fst (onTextChanged h newText e w) in
  let w' := snd (onTextChanged h newText e w) in
  let strategy :=
    match currentFactory e with
    | Some f => f
    | None => factoryForExtension (toLower (suffix (currentPath e)))
    end in
  ((c < b)%Z ->
     files w' = files w
     /\ shown w' = shown w
          ++ map Notified (Subject.notifyDeleted (b - c) (subject e)))
  /\ ((c > b)%Z -> isEmpty (currentPath e) = false ->
        files w'
        = snd (save strategy h (files w) (currentPath e) newText)
        /\ (writable (files w) (currentPath e) = true ->
            contents (files w') (currentPath e)
            = Some (savedBytes strategy h newText))
        /\ shown w' = shown w
             ++ map Notified (Subject.notifySaved (currentPath e) (subject e)))
  /\ ((c > b)%Z -> isEmpty (currentPath e) = true -> w' = w)
  /\ (c = b -> w' = w)
  /\ lastParagraphCount e' = c
  /\ txt e' = newText
  /\ currentPath e' = currentPath e
  /\ subject e' = subject e
  /\ ((c > b)%Z -> isEmpty (currentPath e) = false ->
      currentFactory e' = Some strategy)
  /\ ((c <= b)%Z \/ isEmpty (currentPath e) = true ->
      currentFactory e' = currentFactory e).
Proof.
  intros c b e' w' strategy.
  assert (Hsome : currentFactory (ensureFactory (setText newText e))
                  = Some strategy).
  { unfold strategy, ensureFactory. cbn [setText currentFactory currentPath].
    case_eq (currentFactory e); [intros f Hf|intros Hf];
      cbn [currentFactory]; [exact Hf|reflexivity]. }
  change strategy with (activeFactory e) in *. clear strategy.
  subst e' w'. unfold onTextChanged, textChanged.
  cbn [txt setText lastParagraphCount currentPath]. fold c. fold b.
  destruct (activeFactory_ensureFactory (setText newText e))
    as (Ha & Hp & Hs & _ & _).
  change (activeFactory (setText newText e)) with (activeFactory e) in Ha.
  cbn [setText currentPath subject] in Hp, Hs.
  destruct (c <? b)%Z eqn:Hlt; [|destruct (c >? b)%Z eqn:Hgt].
  - apply Z.ltb_lt in Hlt. cbn [fst snd]. repeat split; try lia; try assumption.
  - apply Z.ltb_ge in Hlt. apply Z.gtb_lt in Hgt.
    destruct (isEmpty (currentPath e)) eqn:Hpath; cbn [negb].
    + cbn [fst snd].
      repeat split; try lia; try discriminate; try assumption.
    + rewrite Ha, Hp, Hs.
      destruct (save (activeFactory e) h (files w) (currentPath e) newText)
        as [ok fs] eqn:Hsave.
      cbn [fst snd].
      split; [lia|]. split.
      { intros _ _. split; [reflexivity|]. split; [|reflexivity].
        intros Hw. cbn [show files].
        rewrite (save_writable _ _ _ _ _ Hw) in Hsave.
        injection Hsave as _ <-. apply written_contents. }
      split; [discriminate|]. split; [lia|].
      split; [reflexivity|].
      split; [unfold ensureFactory;
              destruct (currentFactory (setText newText e)); reflexivity|].
      split; [unfold ensureFactory;
              destruct (currentFactory (setText newText e)); reflexivity|].
      split; [unfold ensureFactory;
              destruct (currentFactory (setText newText e)); reflexivity|].
      split; [intros _ _; exact Hsome|].
      intros [H|H]; [lia|discriminate H].
  - apply Z.ltb_ge in Hlt.
    assert (Hle : (c <= b)%Z).
    { destruct (Z.gtb_spec c b); [discriminate|assumption]. }
    cbn [fst snd].
    repeat split; try lia; try discriminate; try assumption.
Qed.

Lemma textChanged_dispatch_witness :
  let w := {| files := openDisk; shown := [] |} in
  let e1 := fst (onTextChanged unixHost oneTwo editorWithFile w) in
  let w1 := snd (onTextChanged unixHost oneTwo editorWithFile w) in
  let w2 := snd (onTextChanged unixHost [] e1 w1) in
  let ep := fst (onTextChanged unixHost oneTwo editorWithPage w) in
  let wp := snd (onTextChanged unixHost oneTwo editorWithPage w) in
  let eb := fst (onTextChanged unixHost oneTwo editorWithoutFactory w) in
  let wb := snd (onTextChanged unixHost oneTwo editorWithoutFactory w) in
  (contents (files w1) (qs "f.txt") = Some (toUtf8 oneTwo)
   /\ shown w1 = [Notified (1%N, Subject.onAutoSaved (qs "f.txt"))])
  /\ (files w2 = files w1
      /\ shown w2 = [Notified (1%N, Subject.onAutoSaved (qs "f.txt"));
                     Notified (1%N, Subject.onParagraphsDeleted 2)])
  /\ (contents (files wp) (qs "page.html") = Some (toUtf8 oneTwoDocument)
      /\ currentFactory ep = Some HTMLFactory)
  /\ (contents (files wb) (qs "notes.bin") = Some (toUtf8 oneTwo)
      /\ currentFactory eb = Some BINFactory).
Proof.
  intros w e1 w1 w2 ep wp eb wb.
  pose proof (textChanged_dispatch unixHost oneTwo editorWithFile w) as H.
  cbv zeta in H. destruct H as (_ & H & _).
  destruct H as (_ & Hc & Hs); [reflexivity | reflexivity |].
  pose proof (textChanged_dispatch unixHost [] e1 w1) as H'.
  cbv zeta in H'. destruct H' as (H' & _).
  destruct H' as (Hf & Hd); [reflexivity|].
  pose proof (textChanged_dispatch unixHost oneTwo editorWithPage w) as Hp.
  cbv zeta in Hp.
  destruct Hp as (_ & Hp & _ & _ & _ & _ & _ & _ & Hpf & _).
  destruct Hp as (_ & Hpc & _); [reflexivity | reflexivity |].
  pose proof (textChanged_dispatch unixHost oneTwo editorWithoutFactory w)
    as Hb.
  cbv zeta in Hb.
  destruct Hb as (_ & Hb & _ & _ & _ & _ & _ & _ & Hbf & _).
  destruct Hb as (_ & Hbc & _); [reflexivity | reflexivity |].
  split; [split|split; [split|split; split]].
  - exact (Hc eq_refl).
  - exact Hs.
  - exact Hf.
  - exact Hd.
  - exact (Hpc eq_refl).
  - exact (Hpf eq_refl eq_refl).
  - exact (Hbc eq_refl).
  - exact (Hbf eq_refl eq_refl).
Defined.

(** The Save action checks what the saver returns: when the path cannot
    be written it shows the warning, notifies nobody and keeps the text. *)
Lemma actSave_failure_warns (h : Host) (fname : QString)
  (e : Editor) (w : World) :
  isEmpty (currentPath e) = false ->
  writable (files w) (currentPath e) = false ->
  let e' := fst (actSave_triggered h fname e w) in
  let w' := snd (actSave_triggered h fname e w) in
  shown w' = shown w ++ [Warning warningTitle warningText]
  /\ files w' = files w
  /\ currentPath e' = currentPath e
  /\ txt e' = txt e.
Proof.
  intros Hp Hw. unfold actSave_triggered. rewrite Hp.
  destruct (activeFactory_ensureFactory e) as (Ha & Hq & Hs & Ht & _).
  rewrite Ha, Hq, Ht, (save_unwritable _ _ _ _ _ Hw).
  cbn. auto.
Qed.

(** The [textChanged] handler does not: whenever the text has grown, a
    path is set and the path cannot be written, it writes nothing, shows no
    warning and notifies the observers of a save. *)
Lemma textChanged_failure_notifies (h : Host) (newText : QString)
  (e : Editor) (w : World) :
  (countParagraphs newText > lastParagraphCount e)%Z ->
  isEmpty (currentPath e) = false ->
  writable (files w) (currentPath e) = false ->
  let w' := snd (onTextChanged h newText e w) in
  files w' = files w
  /\ shown w' = shown w
       ++ map Notified (Subject.notifySaved (currentPath e) (subject e)).
Proof.
  intros Hc Hp Hw. unfold onTextChanged, textChanged.
  cbn [txt setText lastParagraphCount currentPath].
  assert (E1 : (countParagraphs newText <? lastParagraphCount e)%Z = false)
    by (apply Z.ltb_ge; lia).
  assert (E2 : (countParagraphs newText >? lastParagraphCount e)%Z = true)
    by (apply Z.gtb_lt; lia).
  rewrite E1, E2, Hp. cbn [negb].
  destruct (activeFactory_ensureFactory (setText newText e))
    as (_ & Hq & Hs & _).
  cbn [setText currentPath subject] in Hq, Hs.
  rewrite Hq, Hs, (save_unwritable _ _ _ _ _ Hw). split; reflexivity.
Qed.

(** C5: the spec asks that a failed save shows an error and fires no
    notification, for the Save action and for the save on paragraph growth
    alike.  The [textChanged] handler drops the result of the saver: with
    f.txt not writable and the text growing from one paragraph to two, the
    saver reports failure, nothing is written, no warning is shown and the
    observer is still told that f.txt was saved. *)
Theorem textChanged_ignores_save_failure :
  let w := {| files := readOnlyDisk; shown := [] |} in
  let w' := snd (onTextChanged unixHost oneTwo editorWithFile w) in
  fst (save (activeFactory editorWithFile) unixHost readOnlyDisk
         (qs "f.txt") oneTwo) = false
  /\ files w' = readOnlyDisk
  /\ shown w' = [Notified (1%N, Subject.onAutoSaved (qs "f.txt"))].
Proof.
  cbv zeta. repeat split.
Qed.

(** ** Lines and their flags *)

Lemma split_not_nil (c : QChar) (s : QString) : split c s <> [].
Proof.
  destruct s as [|x s]; simpl; [discriminate|].
  destruct (x =? c)%N; [discriminate|]. destruct (split c s); discriminate.
Qed.

Lemma split_sep_cons (c : QChar) (s : QString) :
  split c (c :: s) = [] :: split c s.
Proof. simpl. rewrite N.eqb_refl. reflexivity. Qed.

Lemma split_app_sep (c : QChar) (s t : QString) :
  split c (s ++ c :: t) = split c s ++ split c t.
Proof.
  induction s as [|x s IH]; [apply split_sep_cons|].
  simpl. destruct (x =? c)%N; rewrite IH; [reflexivity|].
  pose proof (split_not_nil c s) as H.
  destruct (split c s); [contradiction|reflexivity].
Qed.

Lemma split_no_sep (c : QChar) (s : QString) :
  ~ In c s -> split c s = [s].
Proof.
  induction s as [|x s IH]; intros H; [reflexivity|].
  simpl. destruct (N.eqb_spec x c) as [->|_].
  - exfalso. apply H. left. reflexivity.
  - rewrite IH; [reflexivity|]. intros Hin. apply H. right. exact Hin.
Qed.

Lemma split_parts_no_sep (c : QChar) (s ln : QString) :
  In ln (split c s) -> ~ In c ln.
Proof.
  revert ln. induction s as [|x s IH]; intros ln; simpl.
  - intros [<-|[]] [].
  - destruct (N.eqb_spec x c) as [->|Hx].
    + intros [<-|H]; [intros []|apply IH, H].
    + pose proof (split_not_nil c s) as Hne.
      destruct (split c s) as [|l0 rest]; [contradiction|].
      intros [<-|H].
      * intros [E|Hin]; [congruence|].
        apply (IH l0); [left; reflexivity|exact Hin].
      * apply IH. right. exact H.
Qed.



Lemma lineFlags_not_nil (s : QString) : lineFlags s <> [].
Proof.
  unfold lineFlags. pose proof (split_not_nil LF s).
  destruct (split LF s); [contradiction|discriminate].
Qed.

Lemma lineFlags_LF (s : QString) : lineFlags (LF :: s) = true :: lineFlags s.
Proof. unfold lineFlags. rewrite split_sep_cons. reflexivity. Qed.

Lemma lineFlags_cons (c : QChar) (s : QString) :
  c <> LF ->
  lineFlags (c :: s)
  = (isSpace c && hd true (lineFlags s)) :: tl (lineFlags s).
Proof.
  intros Hc. unfold lineFlags. simpl.
  destruct (N.eqb_spec c LF) as [E|_]; [contradiction|].
  pose proof (split_not_nil LF s) as Hne.
  destruct (split LF s) as [|l0 rest]; [contradiction|].
  simpl. rewrite !blankLine_forallb. reflexivity.
Qed.

Lemma lineFlags_space (c : QChar) (s : QString) :
  isSpace c = true -> c <> LF -> lineFlags (c :: s) = lineFlags s.
Proof.
  intros Hs Hc. rewrite (lineFlags_cons _ _ Hc), Hs.
  pose proof (lineFlags_not_nil s). destruct (lineFlags s); [contradiction|].
  reflexivity.
Qed.

Lemma lineFlags_text (c : QChar) (s : QString) :
  isSpace c = false -> lineFlags (c :: s) = false :: tl (lineFlags s).
Proof.
  intros Hs. rewrite lineFlags_cons, Hs; [reflexivity|].
  intros ->. discriminate.
Qed.

Lemma lineFlags_app_LF (s t : QString) :
  lineFlags (s ++ LF :: t) = lineFlags s ++ lineFlags t.
Proof. unfold lineFlags. rewrite split_app_sep, map_app. reflexivity. Qed.

Lemma lineFlags_snoc_LF (s : QString) :
  lineFlags (s ++ [LF]) = lineFlags s ++ [true].
Proof. rewrite lineFlags_app_LF. reflexivity. Qed.

Lemma lineFlags_snoc_space (c : QChar) (s : QString) :
  isSpace c = true -> c <> LF -> lineFlags (s ++ [c]) = lineFlags s.
Proof.
  intros Hs Hc. induction s as [|x s IH].
  - simpl. rewrite (lineFlags_cons _ _ Hc), Hs. reflexivity.
  - simpl. destruct (N.eq_dec x LF) as [->|Hx].
    + rewrite !lineFlags_LF, IH. reflexivity.
    + rewrite !(lineFlags_cons _ _ Hx), IH. reflexivity.
Qed.

Lemma lineFlags_one_line (ln : QString) :
  ~ In LF ln -> lineFlags ln = [blankLine ln].
Proof. intros H. unfold lineFlags. rewrite (split_no_sep _ _ H). reflexivity. Qed.

(** ** Runs of non-blank lines on the flags *)

Lemma runStarts_flags (b : bool) (lines : list QString) :
  runStarts b lines = flagRuns b (map blankLine lines).
Proof.
  revert b. induction lines as [|ln lines IH]; intros b; simpl;
    [|rewrite IH]; reflexivity.
Qed.

Lemma countParagraphs_flags (s : QString) :
  countParagraphs s = Z.of_nat (flagRuns true (lineFlags s)).
Proof.
  rewrite countParagraphs_runs. unfold maximalRuns, lineFlags.
  rewrite runStarts_flags. reflexivity.
Qed.

Lemma flagRuns_app_blank (b : bool) (f1 f2 : list bool) :
  flagRuns b (f1 ++ true :: f2) = (flagRuns b f1 + flagRuns true f2)%nat.
Proof.
  revert b. induction f1 as [|x f1 IH]; intros b; simpl.
  - rewrite andb_false_r. reflexivity.
  - rewrite IH. lia.
Qed.



Lemma flagRuns_lead_blanks (k : nat) (f : list bool) :
  flagRuns true (repeat true k ++ f) = flagRuns true f.
Proof. induction k as [|k IH]; simpl; [reflexivity|exact IH]. Qed.

Lemma flagRuns_blanks (b : bool) (k : nat) :
  flagRuns b (repeat true k) = 0%nat.
Proof.
  revert b. induction k as [|k IH]; intros b; simpl; [reflexivity|].
  rewrite andb_false_r. apply IH.
Qed.

Lemma flagRuns_trail_blanks (b : bool) (k : nat) (f : list bool) :
  flagRuns b (f ++ repeat true k) = flagRuns b f.
Proof.
  destruct k as [|k]; simpl; [rewrite app_nil_r; reflexivity|].
  rewrite flagRuns_app_blank, flagRuns_blanks. lia.
Qed.

(** ** Trimming *)

(** White space at either end of a text only adds blank lines there. *)
Lemma lineFlags_lead_space (c : QChar) (s : QString) :
  isSpace c = true ->
  exists k, lineFlags (c :: s) = repeat true k ++ lineFlags s.
Proof.
  intros Hs. destruct (N.eq_dec c LF) as [->|Hc].
  - exists 1%nat. apply lineFlags_LF.
  - exists 0%nat. apply lineFlags_space; assumption.
Qed.

Lemma lineFlags_trail_space (c : QChar) (s : QString) :
  isSpace c = true ->
  exists k, lineFlags (s ++ [c]) = lineFlags s ++ repeat true k.
Proof.
  intros Hs. destruct (N.eq_dec c LF) as [->|Hc].
  - exists 1%nat. apply lineFlags_snoc_LF.
  - exists 0%nat. rewrite app_nil_r. apply lineFlags_snoc_space; assumption.
Qed.

Lemma lineFlags_skipSpaces (s : QString) :
  exists k, lineFlags s = repeat true k ++ lineFlags (skipSpaces s).
Proof.
  induction s as [|c s (k & IH)]; [exists 0%nat; reflexivity|].
  simpl. destruct (isSpace c) eqn:Hs; [|exists 0%nat; reflexivity].
  destruct (lineFlags_lead_space c s Hs) as (j & E).
  exists (j + k)%nat. rewrite E, IH, repeat_app, app_assoc. reflexivity.
Qed.

Lemma lineFlags_rev_skipSpaces (r : QString) :
  exists k, lineFlags (rev r) = lineFlags (rev (skipSpaces r)) ++ repeat true k.
Proof.
  induction r as [|c r (k & IH)]; [exists 0%nat; reflexivity|].
  simpl. destruct (isSpace c) eqn:Hs.
  - destruct (lineFlags_trail_space c (rev r) Hs) as (j & E).
    exists (k + j)%nat. rewrite E, IH, repeat_app, app_assoc. reflexivity.
  - exists 0%nat. rewrite app_nil_r. reflexivity.
Qed.

Lemma lineFlags_trimmed (s : QString) :
  exists k m,
    lineFlags s = repeat true k ++ lineFlags (trimmed s) ++ repeat true m.
Proof.
  destruct (lineFlags_skipSpaces s) as (k & E1).
  destruct (lineFlags_rev_skipSpaces (rev (skipSpaces s))) as (m & E2).
  rewrite rev_involutive in E2. exists k, m. rewrite E1, E2. reflexivity.
Qed.

Lemma countParagraphs_trimmed (s : QString) :
  countParagraphs (trimmed s) = countParagraphs s.
Proof.
  rewrite !countParagraphs_flags.
  destruct (lineFlags_trimmed s) as (k & m & ->).
  rewrite flagRuns_lead_blanks, flagRuns_trail_blanks. reflexivity.
Qed.

Lemma countParagraphs_lead_space (c : QChar) (s : QString) :
  isSpace c = true -> countParagraphs (c :: s) = countParagraphs s.
Proof.
  intros Hs. rewrite !countParagraphs_flags.
  destruct (lineFlags_lead_space c s Hs) as (k & ->).
  rewrite flagRuns_lead_blanks. reflexivity.
Qed.

Lemma countParagraphs_blank_line_between (s t : QString) :
  countParagraphs (s ++ [LF; LF] ++ t)
  = (countParagraphs s + countParagraphs t)%Z.
Proof.
  rewrite !countParagraphs_flags. simpl.
  rewrite lineFlags_app_LF, lineFlags_LF, flagRuns_app_blank. lia.
Qed.

(** [skipSpaces] returns nothing or a text that begins with a character
    that is not white space. *)
Lemma skipSpaces_head (s : QString) (c : QChar) (r : QString) :
  skipSpaces s = c :: r -> isSpace c = false.
Proof.
  induction s as [|x s IH]; simpl; [discriminate|].
  destruct (isSpace x) eqn:Hx; [exact IH|].
  intros E. injection E as -> _. exact Hx.
Qed.

Lemma skipSpaces_snoc_text (s : QString) (c : QChar) :
  isSpace c = false -> exists u, skipSpaces (s ++ [c]) = u ++ [c].
Proof.
  intros Hc. induction s as [|x s (u & IH)]; simpl.
  - rewrite Hc. exists []. reflexivity.
  - destruct (isSpace x); [exists u; exact IH|].
    exists (x :: s). reflexivity.
Qed.

(** A trimmed text is empty, or begins and ends with characters that are
    not white space. *)
Lemma trimmed_ends (s : QString) :
  trimmed s = []
  \/ ((exists c u, trimmed s = c :: u /\ isSpace c = false)
      /\ (exists v d, trimmed s = v ++ [d] /\ isSpace d = false)).
Proof.
  unfold trimmed. destruct (skipSpaces s) as [|c r] eqn:E; [left; reflexivity|].
  right. pose proof (skipSpaces_head _ _ _ E) as Hc.
  simpl. destruct (skipSpaces_snoc_text (rev r) c Hc) as (u & Eu). split.
  - exists c, (rev u). rewrite Eu, rev_app_distr. split; [reflexivity|exact Hc].
  - destruct (skipSpaces (rev r ++ [c])) as [|d t] eqn:Ed.
    + destruct u; discriminate.
    + exists (rev t), d. split; [reflexivity|].
      apply (skipSpaces_head _ _ _ Ed).
Qed.

(** ** The second loop of [htmlToPlain] *)

Lemma collapseLine_fold (lines : list QString) :
  forall result emptyCount,
    fst (fold_left collapseLine lines (result, emptyCount))
    = result ++ collapsePieces emptyCount lines.
Proof.
  induction lines as [|ln lines IH]; intros result k; cbn [fold_left].
  - simpl. rewrite app_nil_r. reflexivity.
  - unfold collapseLine at 2. fold (blankLine ln).
    cbn [collapsePieces]. destruct (blankLine ln).
    + rewrite IH. destruct (k + 1 <=? 2)%Z; simpl;
        rewrite <- ?app_assoc; reflexivity.
    + rewrite IH, <- !app_assoc. reflexivity.
Qed.

Lemma collapseLines_pieces (lines : list QString) :
  collapseLines lines = collapsePieces 0 lines.
Proof. unfold collapseLines. rewrite collapseLine_fold. reflexivity. Qed.

Lemma collapsePieces_flags (lines : list QString) :
  (forall ln, In ln lines -> ~ In LF ln) ->
  forall k,
    lineFlags (collapsePieces k lines)
    = collapseFlags k (map blankLine lines) ++ [true].
Proof.
  induction lines as [|ln lines IH]; intros Hno k; [reflexivity|].
  assert (Hrest : forall l, In l lines -> ~ In LF l).
  { intros l Hl. apply Hno. right. exact Hl. }
  cbn [collapsePieces map collapseFlags]. destruct (blankLine ln) eqn:Hb.
  - destruct (k + 1 <=? 2)%Z; simpl.
    + rewrite lineFlags_LF, (IH Hrest). reflexivity.
    + apply (IH Hrest).
  - simpl. rewrite lineFlags_app_LF, (IH Hrest).
    rewrite (lineFlags_one_line ln (Hno ln (or_introl eq_refl))), Hb.
    reflexivity.
Qed.

Lemma collapseFlags_runs (fl : list bool) :
  forall k b,
    (0 <= k)%Z -> (b = false -> k = 0%Z) ->
    flagRuns b (collapseFlags k fl ++ [true]) = flagRuns b fl.
Proof.
  induction fl as [|x fl IH]; intros k b Hk Hb.
  - simpl. rewrite andb_false_r. reflexivity.
  - destruct x; cbn [collapseFlags].
    + destruct (Z.leb_spec (k + 1) 2); simpl.
      * rewrite andb_false_r. apply IH; [lia|discriminate].
      * destruct b; [|specialize (Hb eq_refl); lia].
        simpl. apply IH; [lia|discriminate].
    + simpl. f_equal. apply IH; [lia|reflexivity].
Qed.

Lemma threeBlank_spec (fl : list bool) :
  threeBlank fl = true
  <-> exists a b, fl = a ++ [true; true; true] ++ b.
Proof.
  induction fl as [|x fl IH]; simpl.
  - split; [discriminate|]. intros (a & b & E). destruct a; discriminate.
  - rewrite orb_true_iff, IH. split.
    + intros [H|(a & b & ->)].
      * destruct x; [|discriminate].
        destruct fl as [|[] [|[] r]]; try discriminate.
        exists [], r. reflexivity.
      * exists (x :: a), b. reflexivity.
    + intros ([|y a] & b & E).
      * injection E as -> ->. left. reflexivity.
      * injection E as -> ->. right. exists a, b. reflexivity.
Qed.

Lemma threeBlank_infix (a f b : list bool) :
  threeBlank (a ++ f ++ b) = false -> threeBlank f = false.
Proof.
  intros H. destruct (threeBlank f) eqn:E; [|reflexivity].
  apply threeBlank_spec in E. destruct E as (u & v & ->).
  assert (H' : threeBlank (a ++ (u ++ [true; true; true] ++ v) ++ b) = true).
  { apply threeBlank_spec. exists (a ++ u), (v ++ b).
    rewrite <- !app_assoc. reflexivity. }
  congruence.
Qed.

Lemma threeBlank_before_text (k : nat) (f : list bool) :
  (k <= 2)%nat -> threeBlank (repeat true k ++ false :: f) = threeBlank f.
Proof.
  intros Hk. destruct k as [|[|[|k]]]; [| | |lia];
    destruct f as [|? [|? ?]]; reflexivity.
Qed.

Lemma collapseFlags_no_three (fl : list bool) :
  forall k,
    (0 <= k)%Z ->
    threeBlank (repeat true (Z.to_nat (Z.min k 2)) ++ collapseFlags k fl)
    = false.
Proof.
  induction fl as [|x fl IH]; intros k Hk.
  - simpl. rewrite app_nil_r.
    assert (E : Z.to_nat (Z.min k 2) = 0%nat \/ Z.to_nat (Z.min k 2) = 1%nat
                \/ Z.to_nat (Z.min k 2) = 2%nat) by lia.
    destruct E as [-> | [-> | ->]]; reflexivity.
  - destruct x; cbn [collapseFlags].
    + destruct (Z.leb_spec (k + 1) 2).
      * specialize (IH (k + 1)%Z ltac:(lia)).
        replace (Z.to_nat (Z.min (k + 1) 2))
          with (Z.to_nat (Z.min k 2) + 1)%nat in IH by lia.
        rewrite repeat_app, <- app_assoc in IH. exact IH.
      * specialize (IH (k + 1)%Z ltac:(lia)).
        replace (Z.to_nat (Z.min (k + 1) 2))
          with (Z.to_nat (Z.min k 2)) in IH by lia.
        exact IH.
    + specialize (IH 0%Z ltac:(lia)). simpl in IH.
      rewrite threeBlank_before_text; [exact IH|lia].
Qed.

Lemma htmlToPlain_count (html : QString) :
  countParagraphs (htmlToPlain html) = countParagraphs (stripTags html).
Proof.
  unfold htmlToPlain. rewrite countParagraphs_trimmed, collapseLines_pieces.
  rewrite !countParagraphs_flags, collapsePieces_flags.
  - rewrite collapseFlags_runs; [reflexivity|lia|discriminate].
  - intros ln. apply split_parts_no_sep.
Qed.

(** ** The first loop of [htmlToPlain] *)

Lemma scan_text (u : QString) :
  forall st,
    inTag st = false -> ~ In LT u ->
    fold_left scanChar u st
    = {| inTag := false; tag := tag st; out := out st ++ u |}.
Proof.
  induction u as [|c u IH]; intros st Hst Hu.
  - simpl. rewrite app_nil_r. destruct st; simpl in *; subst; reflexivity.
  - cbn [fold_left]. rewrite IH.
    + unfold scanChar. destruct (N.eqb_spec c LT) as [->|_].
      * exfalso. apply Hu. left. reflexivity.
      * rewrite Hst. simpl. rewrite <- app_assoc. reflexivity.
    + unfold scanChar. destruct (c =? LT)%N eqn:E.
      * apply N.eqb_eq in E. subst. exfalso. apply Hu. left. reflexivity.
      * rewrite Hst. reflexivity.
    + intros H. apply Hu. right. exact H.
Qed.

Lemma scan_tag_body (g : QString) :
  forall st,
    inTag st = true -> ~ In LT g -> ~ In GT g ->
    fold_left scanChar g st
    = {| inTag := true; tag := tag st ++ g; out := out st |}.
Proof.
  induction g as [|c g IH]; intros st Hst H1 H2.
  - simpl. rewrite app_nil_r. destruct st; simpl in *; subst; reflexivity.
  - assert (E : scanChar st c
                = {| inTag := true; tag := tag st ++ [c]; out := out st |}).
    { unfold scanChar. destruct (N.eqb_spec c LT) as [->|_].
      - exfalso. apply H1. left. reflexivity.
      - rewrite Hst. destruct (N.eqb_spec c GT) as [->|_]; [|reflexivity].
        exfalso. apply H2. left. reflexivity. }
    cbn [fold_left]. rewrite E, IH; simpl.
    + rewrite <- app_assoc. reflexivity.
    + reflexivity.
    + intros H. apply H1. right. exact H.
    + intros H. apply H2. right. exact H.
Qed.

Lemma scan_tag (g : QString) (st : Scan) :
  ~ In LT g -> ~ In GT g ->
  fold_left scanChar (LT :: g ++ [GT]) st
  = {| inTag := false; tag := g; out := out st ++ tagOutput g |}.
Proof.
  intros H1 H2.
  assert (E : scanChar st LT = {| inTag := true; tag := []; out := out st |}).
  { unfold scanChar. rewrite N.eqb_refl. reflexivity. }
  cbn [fold_left]. rewrite E, fold_left_app.
  rewrite (scan_tag_body g); [|reflexivity|assumption|assumption].
  reflexivity.
Qed.

(** Outside a tag, what was read before only matters by what it left in
    [out]. *)
Lemma scan_out_prefix (u : QString) :
  forall st st' pre,
    inTag st = inTag st' -> (inTag st = true -> tag st = tag st') ->
    out st = pre ++ out st' ->
    out (fold_left scanChar u st) = pre ++ out (fold_left scanChar u st').
Proof.
  induction u as [|c u IH]; intros st st' pre Hi Ht Ho; [exact Ho|].
  cbn [fold_left]. apply IH; unfold scanChar;
    destruct (c =? LT)%N; try reflexivity; try exact Ho;
    rewrite <- Hi; destruct (inTag st) eqn:E; try reflexivity;
    try (destruct (c =? GT)%N; simpl; try reflexivity;
         try (intros _); rewrite ?Ht, ?Ho, ?app_assoc; reflexivity).
  all: simpl; try discriminate; rewrite ?Ho, ?app_assoc; reflexivity.
Qed.

Lemma scan_out (u : QString) (st : Scan) :
  inTag st = false ->
  out (fold_left scanChar u st) = out st ++ stripTags u.
Proof.
  intros H. unfold stripTags. apply scan_out_prefix.
  - exact H.
  - rewrite H. discriminate.
  - simpl. rewrite app_nil_r. reflexivity.
Qed.

Lemma stripTags_text (u : QString) : ~ In LT u -> stripTags u = u.
Proof.
  intros H. unfold stripTags. rewrite scan_text; [reflexivity|reflexivity|exact H].
Qed.

Lemma stripTags_tag (pre g post : QString) :
  inTag (fold_left scanChar pre scanStart) = false ->
  ~ In LT g -> ~ In GT g ->
  stripTags (pre ++ [LT] ++ g ++ [GT] ++ post)
  = stripTags pre ++ tagOutput g ++ stripTags post.
Proof.
  intros Hpre H1 H2. unfold stripTags at 1.
  rewrite fold_left_app.
  change ([LT] ++ g ++ [GT] ++ post) with (LT :: g ++ [GT] ++ post).
  replace (LT :: g ++ [GT] ++ post) with ((LT :: g ++ [GT]) ++ post)
    by (simpl; rewrite <- app_assoc; reflexivity).
  rewrite fold_left_app, (scan_tag g _ H1 H2), scan_out; [|reflexivity].
  cbn [out]. unfold stripTags at 1. rewrite app_assoc. reflexivity.
Qed.

(** The two tests at the end of a tag cannot both succeed. *)
Lemma tagOutput_cases (g : QString) :
  let t := toLower (trimmed g) in
  (startsWith t (qs "br") || startsWith t (qs "p") || startsWith t (qs "/p")
   = true -> tagOutput g = [LF; LF])
  /\ (startsWith t (qs "br") || startsWith t (qs "p") || startsWith t (qs "/p")
      = false -> tagOutput g = []).
Proof.
  intros t. unfold tagOutput. fold t.
  destruct t as [|c [|d r]].
  - split; [discriminate|reflexivity].
  - change (startsWith [c] (qs "br")) with ((c =? 98)%N && false).
    change (startsWith [c] (qs "br/")) with ((c =? 98)%N && false).
    change (startsWith [c] (qs "p")) with ((c =? 112)%N && true).
    change (startsWith [c] (qs "/p")) with ((c =? 47)%N && false).
    rewrite !andb_false_r, andb_true_r. simpl.
    destruct (c =? 112)%N; split; try discriminate; reflexivity.
  - change (startsWith (c :: d :: r) (qs "br"))
      with ((c =? 98)%N && ((d =? 114)%N && true)).
    change (startsWith (c :: d :: r) (qs "br/"))
      with ((c =? 98)%N && ((d =? 114)%N && startsWith r [47%N])).
    change (startsWith (c :: d :: r) (qs "p")) with ((c =? 112)%N && true).
    change (startsWith (c :: d :: r) (qs "/p"))
      with ((c =? 47)%N && ((d =? 112)%N && true)).
    rewrite !andb_true_r.
    destruct (N.eqb_spec c 98) as [->|_]; simpl.
    + destruct (d =? 114)%N; simpl; split; try discriminate; reflexivity.
    + destruct (N.eqb_spec c 112) as [->|_]; simpl;
        [split; [reflexivity|discriminate]|].
      destruct ((c =? 47)%N && (d =? 112)%N); split;
        try discriminate; reflexivity.
Qed.

(** ** C7: the converter *)

Lemma tagOutput_chars (g : QString) (x : QChar) :
  In x (tagOutput g) -> x = LF.
Proof.
  unfold tagOutput. rewrite in_app_iff.
  intros [H|H];
    match type of H with In _ (if ?b then _ else _) => destruct b end;
    simpl in H; intuition congruence.
Qed.

Lemma scan_no_LT (u : QString) :
  forall st, ~ In LT (out st) -> ~ In LT (out (fold_left scanChar u st)).
Proof.
  induction u as [|c u IH]; intros st H; [exact H|].
  cbn [fold_left]. apply IH. unfold scanChar.
  destruct (N.eqb_spec c LT) as [->|Hc]; [exact H|].
  destruct (inTag st); [destruct (c =? GT)%N|]; simpl; try exact H;
    rewrite in_app_iff; intros [Hin|Hin]; try (apply H; exact Hin).
  - apply tagOutput_chars in Hin. discriminate.
  - destruct Hin as [E|[]]. congruence.
Qed.

Lemma split_chars (c : QChar) (s ln : QString) (x : QChar) :
  In ln (split c s) -> In x ln -> In x s.
Proof.
  revert ln. induction s as [|y s IH]; intros ln; simpl.
  - intros [<-|[]] [].
  - destruct (y =? c)%N.
    + intros [<-|H] Hx; [destruct Hx|]. right. apply (IH ln H Hx).
    + pose proof (split_not_nil c s) as Hne.
      destruct (split c s) as [|l0 rest]; [contradiction|].
      intros [<-|H] Hx.
      * destruct Hx as [->|Hx]; [left; reflexivity|].
        right. apply (IH l0); [left; reflexivity|exact Hx].
      * right. apply (IH ln); [right; exact H|exact Hx].
Qed.

Lemma collapsePieces_chars (lines : list QString) (x : QChar) :
  forall k,
    In x (collapsePieces k lines) ->
    x = LF \/ exists ln, In ln lines /\ In x ln.
Proof.
  induction lines as [|ln lines IH]; intros k; simpl; [intros []|].
  destruct (blankLine ln).
  - rewrite in_app_iff. intros [H|H].
    + destruct (k + 1 <=? 2)%Z; simpl in H; intuition.
    + destruct (IH _ H) as [E|(l & Hl & Hx)]; [left; exact E|].
      right. exists l. auto.
  - rewrite in_app_iff. simpl. intros [H|[E|H]].
    + right. exists ln. auto.
    + left. congruence.
    + destruct (IH _ H) as [E|(l & Hl & Hx)]; [left; exact E|].
      right. exists l. auto.
Qed.

Lemma skipSpaces_chars (s : QString) (x : QChar) :
  In x (skipSpaces s) -> In x s.
Proof.
  induction s as [|c s IH]; simpl; [tauto|].
  destruct (isSpace c); [intros H; right; apply IH, H | tauto].
Qed.

Lemma trimmed_chars (s : QString) (x : QChar) : In x (trimmed s) -> In x s.
Proof.
  unfold trimmed. intros H. apply in_rev, skipSpaces_chars, in_rev in H.
  apply skipSpaces_chars. exact H.
Qed.

Lemma htmlToPlain_no_LT (html : QString) : ~ In LT (htmlToPlain html).
Proof.
  unfold htmlToPlain. intros H. apply trimmed_chars in H.
  rewrite collapseLines_pieces in H.
  apply collapsePieces_chars in H. destruct H as [E|(ln & Hln & Hx)];
    [discriminate|].
  apply (split_chars _ _ _ _ Hln) in Hx. revert Hx.
  apply scan_no_LT. intros [].
Qed.

Lemma lineFlags_snoc_text (v : QString) (d : QChar) :
  isSpace d = false -> exists f, lineFlags (v ++ [d]) = f ++ [false].
Proof.
  intros Hd. induction v as [|x v (f & IH)].
  - exists []. simpl. rewrite (lineFlags_text _ _ Hd). reflexivity.
  - simpl. destruct (N.eq_dec x LF) as [->|Hx].
    + exists (true :: f). rewrite lineFlags_LF, IH. reflexivity.
    + rewrite (lineFlags_cons _ _ Hx), IH. destruct f as [|b f]; simpl.
      * exists []. rewrite andb_false_r. reflexivity.
      * exists ((isSpace x && b) :: f). reflexivity.
Qed.

Lemma repeat_snoc (k : nat) : repeat true (S k) = repeat true k ++ [true].
Proof. induction k as [|k IH]; [reflexivity|]. simpl in *. rewrite <- IH. reflexivity. Qed.

Lemma htmlToPlain_no_three_blank (html : QString) :
  threeBlank (lineFlags (htmlToPlain html)) = false.
Proof.
  unfold htmlToPlain.
  set (R := collapseLines (split LF (stripTags html))).
  destruct (trimmed_ends R) as [->|(_ & v & d & E & Hd)]; [reflexivity|].
  destruct (lineFlags_trimmed R) as (k & m & HR).
  assert (HX : lineFlags R
               = collapseFlags 0 (lineFlags (stripTags html)) ++ [true]).
  { unfold R. rewrite collapseLines_pieces. apply collapsePieces_flags.
    intros ln. apply split_parts_no_sep. }
  pose proof (collapseFlags_no_three (lineFlags (stripTags html)) 0
                ltac:(lia)) as H3.
  simpl in H3. rewrite HX in HR. rewrite E in HR |- *.
  destruct (lineFlags_snoc_text v d Hd) as (f & Ef). rewrite Ef in HR |- *.
  destruct m as [|m].
  - simpl in HR. rewrite app_nil_r, app_assoc in HR.
    apply app_inj_tail in HR. destruct HR as [_ HR]. discriminate.
  - rewrite repeat_snoc, !app_assoc in HR. apply app_inj_tail in HR.
    destruct HR as [HR _]. rewrite HR in H3.
    replace (((repeat true k ++ f) ++ [false]) ++ repeat true m)
      with (repeat true k ++ (f ++ [false]) ++ repeat true m) in H3
      by (rewrite <- !app_assoc; reflexivity).
    exact (threeBlank_infix _ _ _ H3).
Qed.

Lemma skipSpaces_app (s t : QString) :
  skipSpaces s <> [] -> skipSpaces (s ++ t) = skipSpaces s ++ t.
Proof.
  induction s as [|c s IH]; simpl; [congruence|].
  destruct (isSpace c); [exact IH|reflexivity].
Qed.

Lemma skipSpaces_blank_app (s t : QString) :
  skipSpaces s = [] -> skipSpaces (s ++ t) = skipSpaces t.
Proof.
  induction s as [|c s IH]; simpl; [reflexivity|].
  destruct (isSpace c); [exact IH|discriminate].
Qed.

Lemma trimmed_snoc_space (s : QString) (c : QChar) :
  isSpace c = true -> trimmed (s ++ [c]) = trimmed s.
Proof.
  intros Hc. unfold trimmed. destruct (skipSpaces s) as [|x r] eqn:E.
  - rewrite (skipSpaces_blank_app _ _ E). simpl. rewrite Hc. reflexivity.
  - rewrite skipSpaces_app, E by congruence.
    rewrite rev_app_distr. simpl. rewrite Hc. reflexivity.
Qed.

Lemma htmlToPlain_one_line (s : QString) :
  ~ In LT s -> ~ In LF s -> htmlToPlain s = trimmed s.
Proof.
  intros H1 H2. unfold htmlToPlain.
  rewrite (stripTags_text _ H1), (split_no_sep _ _ H2), collapseLines_pieces.
  simpl. destruct (blankLine s) eqn:Hb.
  - unfold blankLine in Hb. destruct (trimmed s); [reflexivity|discriminate].
  - apply trimmed_snoc_space. reflexivity.
Qed.

(** C7: [htmlToPlain] leaves no tag in its result (no '<' remains, and a
    closed tag contributes only what [tagOutput] gives for it); a tag whose
    trimmed, lower-cased name begins with "br", "p" or "/p" contributes two
    line feeds and every other tag nothing; the result never has three
    blank lines in a row; it is empty or begins and ends with characters
    that are not white space; and text without tags is not decoded: a
    single line without '<' comes back trimmed and otherwise unchanged, so
    "&amp;" stays "&amp;". *)
Theorem htmlToPlain_strips_separates_collapses_trims :
  (forall html,
      htmlToPlain html = trimmed (collapseLines (split LF (stripTags html))))
  /\ (forall html, ~ In LT (htmlToPlain html))
  /\ (forall pre g post,
         inTag (fold_left scanChar pre scanStart) = false ->
         ~ In LT g -> ~ In GT g ->
         stripTags (pre ++ [LT] ++ g ++ [GT] ++ post)
         = stripTags pre ++ tagOutput g ++ stripTags post)
  /\ (forall g,
         let t := toLower (trimmed g) in
         (startsWith t (qs "br") || startsWith t (qs "p")
          || startsWith t (qs "/p") = true -> tagOutput g = [LF; LF])
         /\ (startsWith t (qs "br") || startsWith t (qs "p")
             || startsWith t (qs "/p") = false -> tagOutput g = []))
  /\ (forall html a l1 l2 l3 b,
         split LF (htmlToPlain html) = a ++ [l1; l2; l3] ++ b ->
         blankLine l1 && blankLine l2 && blankLine l3 = false)
  /\ (forall html,
         htmlToPlain html = []
         \/ ((exists c u, htmlToPlain html = c :: u /\ isSpace c = false)
             /\ (exists v d, htmlToPlain html = v ++ [d] /\ isSpace d = false)))
  /\ (forall s, ~ In LT s -> ~ In LF s -> htmlToPlain s = trimmed s)
  /\ htmlToPlain (qs "&amp;") = qs "&amp;"
  /\ htmlToPlain (qs "a<br>b &amp; c<P>d</p><i>e</i>  ")
     = qs "a" ++ [LF; LF] ++ qs "b &amp; c" ++ [LF; LF] ++ qs "d"
       ++ [LF; LF] ++ qs "e".
Proof.
  split; [reflexivity|].
  split; [exact htmlToPlain_no_LT|].
  split; [exact stripTags_tag|].
  split; [exact tagOutput_cases|].
  split.
  { intros html a l1 l2 l3 b E.
    destruct (blankLine l1 && blankLine l2 && blankLine l3) eqn:H;
      [|reflexivity].
    apply andb_true_iff in H. destruct H as [H H3].
    apply andb_true_iff in H. destruct H as [H1 H2].
    pose proof (htmlToPlain_no_three_blank html) as Hno.
    unfold lineFlags in Hno. rewrite E, !map_app in Hno. simpl in Hno.
    rewrite H1, H2, H3 in Hno.
    assert (Hyes : threeBlank (map blankLine a ++ true :: true :: true
                                :: map blankLine b) = true).
    { apply threeBlank_spec. exists (map blankLine a), (map blankLine b).
      reflexivity. }
    congruence. }
  split; [intros html; apply trimmed_ends|].
  split; [exact htmlToPlain_one_line|].
  split; reflexivity.
Qed.

Lemma htmlToPlain_strips_separates_collapses_trims_witness :
  stripTags (qs "a<br>b") = qs "a" ++ [LF; LF] ++ qs "b"
  /\ tagOutput (qs " P class=x") = [LF; LF]
  /\ tagOutput (qs "body") = []
  /\ blankLine (qs "a") && blankLine [] && blankLine [] = false
  /\ htmlToPlain (qs " x &lt; y ") = qs "x &lt; y".
Proof.
  destruct htmlToPlain_strips_separates_collapses_trims
    as (_ & _ & Htag & Hout & Hthree & _ & Hline & _).
  split; [|split; [|split; [|split]]].
  - apply (Htag (qs "a") (qs "br") (qs "b")); [reflexivity| |];
      simpl; intuition discriminate.
  - apply (Hout (qs " P class=x")). reflexivity.
  - apply (Hout (qs "body")). reflexivity.
  - apply (Hthree (qs "a" ++ [LF; LF; LF; LF; LF] ++ qs "b")
             [] (qs "a") [] [] [qs "b"]).
    reflexivity.
  - apply (Hline (qs " x &lt; y ")); simpl; intuition discriminate.
Defined.

(** ** Splitting at a separator string *)

Lemma splitFrom_not_nil (sep : QString) (s : QString) :
  forall k cur, splitFrom sep k cur s <> [].
Proof.
  induction s as [|c s IH]; intros k cur; cbn [splitFrom]; [discriminate|].
  destruct k; [|apply IH].
  destruct (startsWith (c :: s) sep); [discriminate|apply IH].
Qed.

Lemma splitFrom_skip (sep : QString) (pre : QString) :
  forall s cur,
    splitFrom sep (length pre) cur (pre ++ s) = splitFrom sep 0 cur s.
Proof.
  induction pre as [|c pre IH]; intros s cur; simpl; [|apply IH].
  destruct s; reflexivity.
Qed.

Lemma startsWith_prefix (sep s : QString) :
  startsWith s sep = true -> exists r, s = sep ++ r.
Proof.
  revert s. induction sep as [|p sep IH]; intros s; simpl.
  - exists s. reflexivity.
  - destruct s as [|c s]; [discriminate|].
    rewrite andb_true_iff, N.eqb_eq. intros [-> H].
    destruct (IH s H) as (r & ->). exists r. reflexivity.
Qed.

Lemma join_cons (sep p : QString) (rest : list QString) :
  rest <> [] -> join sep (p :: rest) = p ++ sep ++ join sep rest.
Proof. destruct rest; [congruence|reflexivity]. Qed.

Lemma join_splitFrom (sep : QString) :
  sep <> [] ->
  forall n s cur,
    (length s <= n)%nat -> join sep (splitFrom sep 0 cur s) = cur ++ s.
Proof.
  intros Hsep. induction n as [|n IH]; intros s cur Hn.
  - destruct s; [|simpl in Hn; lia]. simpl. rewrite app_nil_r. reflexivity.
  - destruct s as [|c s]; [simpl; rewrite app_nil_r; reflexivity|].
    cbn [splitFrom]. destruct (startsWith (c :: s) sep) eqn:E.
    + apply startsWith_prefix in E. destruct E as (r & E).
      destruct sep as [|p sep]; [congruence|].
      injection E as -> ->.
      replace (length (p :: sep) - 1)%nat with (length sep) by (simpl; lia).
      rewrite splitFrom_skip, join_cons by apply splitFrom_not_nil.
      rewrite IH.
      * reflexivity.
      * simpl in Hn. rewrite length_app in Hn. lia.
    + rewrite IH; [rewrite <- app_assoc; reflexivity|simpl in Hn; lia].
Qed.

Lemma join_splitString (sep s : QString) :
  sep <> [] -> join sep (splitString sep KeepEmptyParts s) = s.
Proof.
  intros H. apply (join_splitFrom sep H (length s) s []). lia.
Qed.

Lemma splitString_skip_nonempty (sep s p : QString) :
  In p (splitString sep SkipEmptyParts s) -> p <> [].
Proof.
  simpl. rewrite filter_In. intros [_ H] ->. discriminate.
Qed.

(** ** C4: the paragraph count survives the HTML saver and loader *)

Lemma countParagraphs_join (parts : list QString) :
  countParagraphs (join [LF; LF] parts) = totalParagraphs parts.
Proof.
  unfold totalParagraphs.
  induction parts as [|p parts IH]; [reflexivity|].
  destruct parts as [|q parts].
  - simpl. lia.
  - rewrite join_cons by discriminate.
    rewrite countParagraphs_blank_line_between, IH. reflexivity.
Qed.

Lemma totalParagraphs_skip_empty (parts : list QString) :
  totalParagraphs (filter (fun p => negb (isEmpty p)) parts)
  = totalParagraphs parts.
Proof.
  unfold totalParagraphs.
  induction parts as [|p parts IH]; [reflexivity|].
  simpl. destruct p; simpl; rewrite IH; reflexivity.
Qed.

Lemma countParagraphs_parts (text : QString) :
  countParagraphs text
  = totalParagraphs (splitString [LF; LF] SkipEmptyParts text).
Proof.
  cbn [splitString]. rewrite totalParagraphs_skip_empty.
  rewrite <- countParagraphs_join.
  change (splitFrom [LF; LF] 0 [] text)
    with (splitString [LF; LF] KeepEmptyParts text).
  rewrite join_splitString; [reflexivity|discriminate].
Qed.

Lemma escapeChar_cases (c : QChar) :
  (c <> LT /\ escapeChar c = [c])
  \/ escapeChar c = qs "&lt;" \/ escapeChar c = qs "&gt;"
  \/ escapeChar c = qs "&amp;" \/ escapeChar c = qs "&quot;".
Proof.
  unfold escapeChar. destruct (N.eqb_spec c LT); [tauto|].
  destruct (c =? GT)%N; [tauto|]. destruct (c =? AMP)%N; [tauto|].
  destruct (c =? QUOT)%N; tauto.
Qed.

Lemma toHtmlEscaped_no_LT (p : QString) : ~ In LT (toHtmlEscaped p).
Proof.
  induction p as [|c p IH]; [intros []|].
  simpl. rewrite in_app_iff. intros [H|H]; [|exact (IH H)].
  destruct (escapeChar_cases c) as [[Hc E]|[E|[E|[E|E]]]];
    rewrite E in H; unfold LT in *; simpl in H;
    intuition (try discriminate; congruence).
Qed.

Lemma lineFlags_escaped (p : QString) :
  lineFlags (toHtmlEscaped p) = lineFlags p.
Proof.
  induction p as [|c p IH]; [reflexivity|].
  unfold toHtmlEscaped. cbn [flat_map]. fold (toHtmlEscaped p).
  unfold escapeChar.
  destruct (N.eqb_spec c LT) as [->|_];
    [|destruct (N.eqb_spec c GT) as [->|_];
      [|destruct (N.eqb_spec c AMP) as [->|_];
        [|destruct (N.eqb_spec c QUOT) as [->|_]]]].
  1-4: cbn [qs list_ascii_of_string map app];
       rewrite !lineFlags_text by reflexivity; cbn [tl];
       rewrite IH; reflexivity.
  cbn [app]. destruct (N.eq_dec c LF) as [->|Hc].
  - rewrite !lineFlags_LF, IH. reflexivity.
  - rewrite !(lineFlags_cons _ _ Hc), IH. reflexivity.
Qed.

Lemma countParagraphs_escaped (p : QString) :
  countParagraphs (toHtmlEscaped p) = countParagraphs p.
Proof. rewrite !countParagraphs_flags, lineFlags_escaped. reflexivity. Qed.

Lemma scan_inTag_prefix (u : QString) :
  forall st st',
    inTag st = inTag st' -> (inTag st = true -> tag st = tag st') ->
    inTag (fold_left scanChar u st) = inTag (fold_left scanChar u st').
Proof.
  induction u as [|c u IH]; intros st st' Hi Ht; [exact Hi|].
  cbn [fold_left]. apply IH; unfold scanChar; rewrite <- Hi;
    (destruct (c =? LT)%N; [simpl; reflexivity|]);
    (destruct (inTag st) eqn:E; [destruct (c =? GT)%N|]);
    simpl; try reflexivity; try discriminate.
  intros _. rewrite Ht; reflexivity.
Qed.

Lemma closed_app (u v : QString) : closed u -> closed v -> closed (u ++ v).
Proof.
  unfold closed. intros Hu Hv. rewrite fold_left_app, <- Hv.
  apply scan_inTag_prefix; [exact Hu|]. rewrite Hu. discriminate.
Qed.

Lemma stripTags_app (u v : QString) :
  closed u -> stripTags (u ++ v) = stripTags u ++ stripTags v.
Proof.
  intros Hu. unfold stripTags at 1. rewrite fold_left_app.
  apply scan_out. exact Hu.
Qed.

Lemma closed_text (u : QString) : ~ In LT u -> closed u.
Proof.
  intros H. unfold closed. rewrite scan_text; [reflexivity|reflexivity|exact H].
Qed.

Lemma paragraphElement_closed (p : QString) : closed (paragraphElement p).
Proof.
  unfold paragraphElement.
  apply (closed_app (qs "<p>")); [reflexivity|].
  apply closed_app; [apply closed_text, toHtmlEscaped_no_LT|reflexivity].
Qed.

Lemma paragraphElement_stripped (p : QString) :
  stripTags (paragraphElement p) = paragraphText p.
Proof.
  unfold paragraphElement, paragraphText.
  rewrite (stripTags_app (qs "<p>")) by reflexivity.
  rewrite stripTags_app by (apply closed_text, toHtmlEscaped_no_LT).
  rewrite (stripTags_text (toHtmlEscaped p)) by apply toHtmlEscaped_no_LT.
  reflexivity.
Qed.

Lemma paragraphs_closed (parts : list QString) :
  closed (flat_map paragraphElement parts).
Proof.
  induction parts as [|p parts IH]; [reflexivity|].
  cbn [flat_map]. apply closed_app; [apply paragraphElement_closed|exact IH].
Qed.

Lemma paragraphs_stripped (parts : list QString) :
  stripTags (flat_map paragraphElement parts) = flat_map paragraphText parts.
Proof.
  induction parts as [|p parts IH]; [reflexivity|].
  cbn [flat_map]. rewrite stripTags_app by apply paragraphElement_closed.
  rewrite paragraphElement_stripped, IH. reflexivity.
Qed.

Lemma HTMLSaver_output_stripped (text : QString) :
  stripTags (HTMLSaver_output text)
  = [LF] ++ flat_map paragraphText
               (splitString [LF; LF] SkipEmptyParts text) ++ [LF; LF].
Proof.
  change (HTMLSaver_output text)
    with ((qs "<html><body>" ++ [LF])
          ++ flat_map paragraphElement
               (splitString [LF; LF] SkipEmptyParts text)
          ++ ([LF] ++ qs "</body></html>" ++ [LF])).
  rewrite (stripTags_app (qs "<html><body>" ++ [LF])) by reflexivity.
  rewrite (stripTags_app (flat_map paragraphElement _))
    by apply paragraphs_closed.
  rewrite paragraphs_stripped. reflexivity.
Qed.

Lemma countParagraphs_paragraphTexts (parts : list QString) :
  countParagraphs (flat_map paragraphText parts ++ [LF; LF])
  = totalParagraphs parts.
Proof.
  unfold totalParagraphs.
  induction parts as [|p parts IH]; [reflexivity|].
  cbn [flat_map map fold_right]. unfold paragraphText at 1.
  replace ((([LF; LF] ++ toHtmlEscaped p ++ [LF; LF] ++ [LF])
            ++ flat_map paragraphText parts) ++ [LF; LF])
    with (([LF; LF] ++ toHtmlEscaped p) ++ [LF; LF]
          ++ (LF :: flat_map paragraphText parts ++ [LF; LF]))
    by (simpl; rewrite <- !app_assoc; reflexivity).
  rewrite countParagraphs_blank_line_between.
  cbn [app]. rewrite !countParagraphs_lead_space by reflexivity.
  rewrite countParagraphs_escaped, IH. reflexivity.
Qed.

(** C4: for every text, the document the HTML saver writes for it is
    converted back by [htmlToPlain] into a text with the same number of
    paragraphs. *)
Theorem paragraph_count_survives_html (text : QString) :
  countParagraphs (htmlToPlain (HTMLSaver_output text)) = countParagraphs text.
Proof.
  rewrite htmlToPlain_count, HTMLSaver_output_stripped.
  cbn [app]. rewrite countParagraphs_lead_space by reflexivity.
  rewrite countParagraphs_paragraphTexts. symmetry.
  apply countParagraphs_parts.
Qed.

(** ** UTF-8: decoding what was encoded *)

Lemma surrogate_bounds (c : QChar) :
  (isHighSurrogate c = true <-> (0xD800 <= c <= 0xDBFF)%N)
  /\ (isLowSurrogate c = true <-> (0xDC00 <= c <= 0xDFFF)%N)
  /\ (isSurrogate c = true <-> (0xD800 <= c <= 0xDFFF)%N).
Proof.
  unfold isHighSurrogate, isLowSurrogate, isSurrogate.
  rewrite !andb_true_iff, !N.leb_le. tauto.
Qed.

(** The ranges of the bytes of each length. *)
Lemma utf8Bytes_2 (u : N) :
  (0x80 <= u < 0x800)%N ->
  (0xC2 <= 0xC0 + u / 64 < 0xE0)%N /\ (0x80 <= 0x80 + u mod 64 < 0xC0)%N
  /\ ((0xC0 + u / 64 - 0xC0) * 64 + (0x80 + u mod 64 - 0x80))%N = u.
Proof. intros H. repeat split; divlia. Qed.

Lemma utf8Bytes_3 (u : N) :
  (0x800 <= u < 0x10000)%N ->
  (0xE0 <= 0xE0 + u / 4096 < 0xF0)%N
  /\ (0x80 <= 0x80 + (u / 64) mod 64 < 0xC0)%N
  /\ (0x80 <= 0x80 + u mod 64 < 0xC0)%N
  /\ ((0xE0 + u / 4096 - 0xE0) * 4096
      + (0x80 + (u / 64) mod 64 - 0x80) * 64
      + (0x80 + u mod 64 - 0x80))%N = u.
Proof. intros H. repeat split; divlia. Qed.

Lemma utf8Bytes_4 (u : N) :
  (0x10000 <= u < 0x110000)%N ->
  (0xF0 <= 0xF0 + u / 262144 < 0xF5)%N
  /\ (0x80 <= 0x80 + (u / 4096) mod 64 < 0xC0)%N
  /\ (0x80 <= 0x80 + (u / 64) mod 64 < 0xC0)%N
  /\ (0x80 <= 0x80 + u mod 64 < 0xC0)%N
  /\ ((0xF0 + u / 262144 - 0xF0) * 262144
      + (0x80 + (u / 4096) mod 64 - 0x80) * 4096
      + (0x80 + (u / 64) mod 64 - 0x80) * 64
      + (0x80 + u mod 64 - 0x80))%N = u.
Proof. intros H. repeat split; divlia. Qed.

Lemma isContinuation_bounds (b : N) :
  (0x80 <= b < 0xC0)%N -> isContinuation b = true.
Proof. intros H. unfold isContinuation. decide_tests. reflexivity. Qed.

Lemma decoded_ok (least u : N) :
  (least <= u < 0x110000)%N -> isSurrogate u = false ->
  decoded least u = Some (utf16Units u).
Proof.
  intros H Hs. unfold decoded. rewrite Hs. decide_tests. reflexivity.
Qed.

(** One step of the decoder at a sequence of two, three and four bytes. *)
Lemma decodeUtf8_2 (b0 b1 : N) (r : QByteArray) (us : QString) :
  (0xC2 <= b0 < 0xE0)%N -> isContinuation b1 = true ->
  decoded 0x80 ((b0 - 0xC0) * 64 + (b1 - 0x80))%N = Some us ->
  decodeUtf8 (b0 :: b1 :: r) = us ++ decodeUtf8 r.
Proof.
  intros H0 H1 E. remember (b1 :: r) as rest eqn:Er.
  cbn [decodeUtf8]. decide_tests. subst rest. rewrite H1, E. reflexivity.
Qed.

Lemma decodeUtf8_3 (b0 b1 b2 : N) (r : QByteArray) (us : QString) :
  (0xE0 <= b0 < 0xF0)%N ->
  isContinuation b1 = true -> isContinuation b2 = true ->
  decoded 0x800 ((b0 - 0xE0) * 4096 + (b1 - 0x80) * 64 + (b2 - 0x80))%N
  = Some us ->
  decodeUtf8 (b0 :: b1 :: b2 :: r) = us ++ decodeUtf8 r.
Proof.
  intros H0 H1 H2 E. remember (b1 :: b2 :: r) as rest eqn:Er.
  cbn [decodeUtf8]. decide_tests. subst rest. rewrite H1, H2, E.
  reflexivity.
Qed.

Lemma decodeUtf8_4 (b0 b1 b2 b3 : N) (r : QByteArray) (us : QString) :
  (0xF0 <= b0 < 0xF5)%N ->
  isContinuation b1 = true -> isContinuation b2 = true ->
  isContinuation b3 = true ->
  decoded 0x10000 ((b0 - 0xF0) * 262144 + (b1 - 0x80) * 4096
                   + (b2 - 0x80) * 64 + (b3 - 0x80))%N = Some us ->
  decodeUtf8 (b0 :: b1 :: b2 :: b3 :: r) = us ++ decodeUtf8 r.
Proof.
  intros H0 H1 H2 H3 E. remember (b1 :: b2 :: b3 :: r) as rest eqn:Er.
  cbn [decodeUtf8]. decide_tests. subst rest. rewrite H1, H2, H3, E.
  reflexivity.
Qed.

Lemma decodeUtf8_encoded (u : N) (r : QByteArray) :
  (u < 0x110000)%N -> isSurrogate u = false ->
  decodeUtf8 (utf8Bytes u ++ r) = utf16Units u ++ decodeUtf8 r.
Proof.
  intros Hu Hs. unfold utf8Bytes.
  destruct (N.ltb_spec u 0x80); [|destruct (N.ltb_spec u 0x800);
    [|destruct (N.ltb_spec u 0x10000)]].
  - cbn [app decodeUtf8]. unfold utf16Units. decide_tests. reflexivity.
  - destruct (utf8Bytes_2 u ltac:(lia)) as (B0 & B1 & E).
    apply decodeUtf8_2; [exact B0|apply isContinuation_bounds, B1|].
    rewrite E. apply decoded_ok; [lia|exact Hs].
  - destruct (utf8Bytes_3 u ltac:(lia)) as (B0 & B1 & B2 & E).
    apply decodeUtf8_3;
      [exact B0|apply isContinuation_bounds, B1
       |apply isContinuation_bounds, B2|].
    rewrite E. apply decoded_ok; [lia|exact Hs].
  - destruct (utf8Bytes_4 u ltac:(lia)) as (B0 & B1 & B2 & B3 & E).
    apply decodeUtf8_4;
      [exact B0|apply isContinuation_bounds, B1
       |apply isContinuation_bounds, B2|apply isContinuation_bounds, B3|].
    rewrite E. apply decoded_ok; [lia|exact Hs].
Qed.

Lemma surrogate_pair (c d : QChar) :
  isHighSurrogate c = true -> isLowSurrogate d = true ->
  let u := (0x10000 + (c - 0xD800) * 1024 + (d - 0xDC00))%N in
  (0x10000 <= u < 0x110000)%N /\ isSurrogate u = false
  /\ utf16Units u = [c; d].
Proof.
  intros Hc Hd u. apply (surrogate_bounds c) in Hc.
  apply (surrogate_bounds d) in Hd.
  assert (Hu : (0x10000 <= u < 0x110000)%N) by (subst u; lia).
  split; [exact Hu|]. split.
  - destruct (isSurrogate u) eqn:E; [|reflexivity].
    apply (surrogate_bounds u) in E. lia.
  - unfold utf16Units. decide_tests. subst u. f_equal; [|f_equal]; divlia.
Qed.

Lemma not_surrogate (c : QChar) :
  isHighSurrogate c = false -> isLowSurrogate c = false ->
  isSurrogate c = false.
Proof.
  intros H1 H2. destruct (isSurrogate c) eqn:E; [|reflexivity].
  exfalso. apply (surrogate_bounds c) in E.
  destruct (N.le_gt_cases c 0xDBFF).
  - assert (isHighSurrogate c = true) by (apply (surrogate_bounds c); lia).
    congruence.
  - assert (isLowSurrogate c = true) by (apply (surrogate_bounds c); lia).
    congruence.
Qed.

Lemma decodeUtf8_toUtf8 (n : nat) :
  forall s, (length s <= n)%nat -> isValidUtf16 s = true ->
            decodeUtf8 (toUtf8 s) = s.
Proof.
  induction n as [|n IH]; intros s Hn Hv.
  - destruct s; [reflexivity|simpl in Hn; lia].
  - destruct s as [|c s]; [reflexivity|].
    cbn [toUtf8 isValidUtf16] in *. destruct (isHighSurrogate c) eqn:Hc.
    + destruct s as [|d s]; [discriminate|].
      apply andb_true_iff in Hv. destruct Hv as [Hd Hv]. rewrite Hd.
      destruct (surrogate_pair c d Hc Hd) as (Hu & Hs & E).
      rewrite decodeUtf8_encoded by (try exact Hs; lia).
      rewrite E, IH; [reflexivity|simpl in Hn; lia|exact Hv].
    + apply andb_true_iff in Hv. destruct Hv as [Hv Hrest].
      apply andb_true_iff in Hv. destruct Hv as [Hlt Hlow].
      apply negb_true_iff in Hlow. apply N.ltb_lt in Hlt. rewrite Hlow.
      rewrite decodeUtf8_encoded
        by (try apply not_surrogate; try assumption; lia).
      unfold utf16Units. decide_tests.
      rewrite IH; [reflexivity|simpl in Hn; lia|exact Hrest].
Qed.

Lemma decodeUtf8_toUtf8_valid (s : QString) :
  isValidUtf16 s = true -> decodeUtf8 (toUtf8 s) = s.
Proof. apply (decodeUtf8_toUtf8 (length s)). lia. Qed.

(** Only a text that begins with U+FEFF is encoded with the byte order
    mark in front. *)
Lemma toUtf8_bom (s : QString) :
  isValidUtf16 s = true -> startsWith (toUtf8 s) utf8bom = true ->
  hd_error s = Some ByteOrderMark.
Proof.
  destruct s as [|c s]; [discriminate|].
  cbn [toUtf8 isValidUtf16]. destruct (isHighSurrogate c) eqn:Hc.
  - destruct s as [|d s]; [discriminate|].
    rewrite andb_true_iff. intros [Hd _]. rewrite Hd.
    destruct (surrogate_pair c d Hc Hd) as (Hu & _ & _).
    unfold utf8Bytes. decide_tests.
    destruct (utf8Bytes_4 _ Hu) as (B0 & _).
    cbn [app startsWith utf8bom]. rewrite andb_true_iff, N.eqb_eq. lia.
  - rewrite !andb_true_iff, negb_true_iff, N.ltb_lt.
    intros [[Hlt Hlow] _]. rewrite Hlow. unfold utf8Bytes.
    destruct (N.ltb_spec c 0x80); [|destruct (N.ltb_spec c 0x800)].
    + cbn [app startsWith utf8bom]. rewrite andb_true_iff, N.eqb_eq. lia.
    + destruct (utf8Bytes_2 c ltac:(lia)) as (B0 & _).
      cbn [app startsWith utf8bom]. rewrite andb_true_iff, N.eqb_eq. lia.
    + decide_tests. cbn [app startsWith utf8bom].
      rewrite !andb_true_iff, !N.eqb_eq. intros (E0 & E1 & E2 & _).
      simpl. f_equal. unfold ByteOrderMark. divlia.
Qed.

Lemma fromUtf8_toUtf8 (s : QString) :
  isValidUtf16 s = true -> hd_error s <> Some ByteOrderMark ->
  fromUtf8 (toUtf8 s) = s.
Proof.
  intros Hv Hb. unfold fromUtf8.
  destruct (startsWith (toUtf8 s) utf8bom) eqn:E.
  - exfalso. apply Hb, toUtf8_bom; assumption.
  - apply decodeUtf8_toUtf8_valid, Hv.
Qed.

(** No byte of an encoded text is 0xF8 or more, so the stream decoder
    never takes it for UTF-16 or UTF-32. *)
Lemma utf8Bytes_small (u : N) :
  (u < 0x110000)%N -> Forall (fun b => (b < 0xF8)%N) (utf8Bytes u).
Proof.
  intros Hu. unfold utf8Bytes.
  destruct (N.ltb_spec u 0x80); [|destruct (N.ltb_spec u 0x800);
    [|destruct (N.ltb_spec u 0x10000)]].
  - repeat constructor. lia.
  - destruct (utf8Bytes_2 u ltac:(lia)) as (B0 & B1 & _).
    repeat constructor; lia.
  - destruct (utf8Bytes_3 u ltac:(lia)) as (B0 & B1 & B2 & _).
    repeat constructor; lia.
  - destruct (utf8Bytes_4 u ltac:(lia)) as (B0 & B1 & B2 & B3 & _).
    repeat constructor; lia.
Qed.

Lemma toUtf8_small (n : nat) :
  forall s, (length s <= n)%nat -> isValidUtf16 s = true ->
            Forall (fun b => (b < 0xF8)%N) (toUtf8 s).
Proof.
  induction n as [|n IH]; intros s Hn Hv.
  - destruct s; [constructor|simpl in Hn; lia].
  - destruct s as [|c s]; [constructor|].
    cbn [toUtf8 isValidUtf16] in *. destruct (isHighSurrogate c) eqn:Hc.
    + destruct s as [|d s]; [discriminate|].
      apply andb_true_iff in Hv. destruct Hv as [Hd Hv]. rewrite Hd.
      destruct (surrogate_pair c d Hc Hd) as (Hu & _ & _).
      apply Forall_app. split; [apply utf8Bytes_small; lia|].
      apply IH; [simpl in Hn; lia|exact Hv].
    + apply andb_true_iff in Hv. destruct Hv as [Hv Hrest].
      apply andb_true_iff in Hv. destruct Hv as [Hlt Hlow].
      apply negb_true_iff in Hlow. apply N.ltb_lt in Hlt. rewrite Hlow.
      apply Forall_app. split; [apply utf8Bytes_small; lia|].
      apply IH; [simpl in Hn; lia|exact Hrest].
Qed.

Lemma announcesUtf16or32_small (bytes : QByteArray) :
  Forall (fun b => (b < 0xF8)%N) bytes -> announcesUtf16or32 bytes = false.
Proof.
  intros H. unfold announcesUtf16or32.
  destruct bytes as [|a [|b [|c [|d r]]]]; cbn [startsWith];
    repeat match goal with
      | H : Forall _ (_ :: _) |- _ => inversion H; clear H; subst
      end;
    repeat match goal with
      | |- context [(?x =? ?y)%N] =>
          destruct (N.eqb_spec x y); try lia; cbn [andb orb]
      end;
    reflexivity.
Qed.

Lemma toUtf8_not_announced (s : QString) :
  isValidUtf16 s = true -> announcesUtf16or32 (toUtf8 s) = false.
Proof.
  intros H. apply announcesUtf16or32_small, (toUtf8_small (length s)); auto.
Qed.

(** ** Text mode *)

Lemma remove_absent (c : QChar) (s : QString) : ~ In c s -> remove c s = s.
Proof.
  induction s as [|x s IH]; intros H; [reflexivity|].
  simpl. destruct (N.eqb_spec x c) as [->|_].
  - exfalso. apply H. left. reflexivity.
  - simpl. rewrite IH; [reflexivity|]. intros Hin. apply H. right. exact Hin.
Qed.

Lemma remove_CR_lineFeedToCRLF (s : QString) :
  remove CR (lineFeedToCRLF s) = remove CR s.
Proof.
  induction s as [|x s IH]; [reflexivity|].
  unfold lineFeedToCRLF. cbn [flat_map]. fold (lineFeedToCRLF s).
  destruct (N.eqb_spec x LF) as [->|_].
  - simpl. rewrite <- IH. reflexivity.
  - cbn [app remove filter]. fold (remove CR (lineFeedToCRLF s)).
    fold (remove CR s). rewrite IH. reflexivity.
Qed.

Lemma lineFeedToCRLF_valid (n : nat) :
  forall s, (length s <= n)%nat -> isValidUtf16 s = true ->
            isValidUtf16 (lineFeedToCRLF s) = true.
Proof.
  induction n as [|n IH]; intros s Hn Hv.
  - destruct s; [reflexivity|simpl in Hn; lia].
  - destruct s as [|c s]; [reflexivity|].
    unfold lineFeedToCRLF. cbn [flat_map]. fold (lineFeedToCRLF s).
    cbn [isValidUtf16] in Hv. destruct (isHighSurrogate c) eqn:Hc.
    + destruct s as [|d s]; [discriminate|].
      apply andb_true_iff in Hv. destruct Hv as [Hd Hv].
      unfold lineFeedToCRLF. cbn [flat_map]. fold (lineFeedToCRLF s).
      destruct (N.eqb_spec c LF) as [->|_]; [discriminate|].
      destruct (N.eqb_spec d LF) as [->|_]; [discriminate|].
      cbn [app isValidUtf16]. rewrite Hc, Hd.
      apply IH; [simpl in Hn; lia|exact Hv].
    + apply andb_true_iff in Hv. destruct Hv as [Hv Hrest].
      specialize (IH s ltac:(simpl in Hn; lia) Hrest).
      destruct (N.eqb_spec c LF) as [->|_].
      * cbn [app]. change (isValidUtf16 (CR :: LF :: lineFeedToCRLF s))
          with (isValidUtf16 (lineFeedToCRLF s)). exact IH.
      * cbn [app isValidUtf16]. rewrite Hc, Hv, IH. reflexivity.
Qed.

Lemma lineFeedToCRLF_head (s : QString) :
  hd_error s <> Some ByteOrderMark ->
  hd_error (lineFeedToCRLF s) <> Some ByteOrderMark.
Proof.
  destruct s as [|c s]; [auto|].
  unfold lineFeedToCRLF. cbn [flat_map].
  destruct (N.eqb_spec c LF) as [->|_]; [discriminate|auto].
Qed.

(** ** C6: the plain text strategy *)

Lemma written_read (fs : FileSystem) (path : QString) (bytes : QByteArray) :
  readable fs path = true ->
  openRead (written fs path bytes) path = Some bytes.
Proof.
  intros H. unfold openRead. cbn [readable written]. rewrite H.
  apply written_contents.
Qed.

(** C6, as the spec states it, fails: the file is opened in text mode, and
    reading in text mode removes the carriage returns, so "a\r\nb" comes
    back as "a\nb". *)
Lemma TXT_roundtrip_loses_carriage_return :
  writable openDisk (qs "f.txt") = true
  /\ readable openDisk (qs "f.txt") = true
  /\ fst (TXTSaver_save unixHost openDisk (qs "f.txt") dosLines) = true
  /\ TXTLoader_load unixHost
       (snd (TXTSaver_save unixHost openDisk (qs "f.txt") dosLines))
       (qs "f.txt") = qs "a" ++ [LF] ++ qs "b"
  /\ TXTLoader_load unixHost
       (snd (TXTSaver_save unixHost openDisk (qs "f.txt") dosLines))
       (qs "f.txt") <> dosLines.
Proof. repeat split. discriminate. Qed.

(** The same with a surrogate that has no partner, which UTF-8 cannot
    carry, and with a leading U+FEFF, which the decoder passes over. *)
Lemma TXT_roundtrip_loses_half_pair_and_mark :
  TXTLoader_load unixHost
    (snd (TXTSaver_save unixHost openDisk (qs "f.txt") halfPair))
    (qs "f.txt") = qs "?a"
  /\ TXTLoader_load unixHost
       (snd (TXTSaver_save unixHost openDisk (qs "f.txt") markedText))
       (qs "f.txt") = qs "a".
Proof. split; reflexivity. Qed.

(** C6, amended: for every text that is valid UTF-16, contains no carriage
    return and does not begin with U+FEFF, and every path that can be
    written and then read, saving the text with the plain text strategy
    succeeds and loading from the same path returns exactly the text, on
    every host. *)
Theorem TXT_roundtrip (h : Host) (fs : FileSystem) (path text : QString) :
  writable fs path = true -> readable fs path = true ->
  isValidUtf16 text = true -> ~ In CR text ->
  hd_error text <> Some ByteOrderMark ->
  fst (TXTSaver_save h fs path text) = true
  /\ TXTLoader_load h (snd (TXTSaver_save h fs path text)) path = text.
Proof.
  intros Hw Hr Hv Hcr Hb. unfold TXTSaver_save. rewrite Hw. cbn [fst snd].
  split; [reflexivity|].
  unfold TXTLoader_load. rewrite (written_read _ _ _ Hr).
  unfold textStreamReadAll, textStreamWrite.
  set (sent := if crlf h then lineFeedToCRLF text else text).
  assert (Hsv : isValidUtf16 sent = true).
  { subst sent. destruct (crlf h); [|exact Hv].
    apply (lineFeedToCRLF_valid (length text)); auto. }
  assert (Hsb : hd_error sent <> Some ByteOrderMark).
  { subst sent. destruct (crlf h); [|exact Hb].
    apply lineFeedToCRLF_head, Hb. }
  rewrite (toUtf8_not_announced _ Hsv), (fromUtf8_toUtf8 _ Hsv Hsb).
  subst sent. destruct (crlf h).
  - rewrite remove_CR_lineFeedToCRLF. apply remove_absent, Hcr.
  - apply remove_absent, Hcr.
Qed.

Lemma TXT_roundtrip_witness :
  TXTLoader_load windowsHost
    (snd (TXTSaver_save windowsHost openDisk (qs "f.txt") greeting))
    (qs "f.txt") = greeting.
Proof.
  apply (TXT_roundtrip windowsHost openDisk (qs "f.txt") greeting);
    try reflexivity.
  - simpl. intuition discriminate.
  - discriminate.
Defined.

(** ** C10: the raw strategy *)

(** C10, as stated, fails: a surrogate without its partner has no UTF-8
    form and is written as '?'. *)
Lemma BIN_roundtrip_loses_half_pair :
  writable openDisk (qs "f.bin") = true
  /\ readable openDisk (qs "f.bin") = true
  /\ fst (BINSaver_save unixHost openDisk (qs "f.bin") halfPair) = true
  /\ BINLoader_load unixHost
       (snd (BINSaver_save unixHost openDisk (qs "f.bin") halfPair))
       (qs "f.bin") = qs "?a"
  /\ BINLoader_load unixHost
       (snd (BINSaver_save unixHost openDisk (qs "f.bin") halfPair))
       (qs "f.bin") <> halfPair.
Proof. repeat split. discriminate. Qed.

(** A leading U+FEFF is written as the UTF-8 byte order mark, which
    [fromUtf8] passes over; carriage returns are kept. *)
Lemma BIN_roundtrip_loses_mark_keeps_carriage_return :
  BINLoader_load unixHost
    (snd (BINSaver_save unixHost openDisk (qs "f.bin") markedText))
    (qs "f.bin") = qs "a"
  /\ BINLoader_load unixHost
       (snd (BINSaver_save unixHost openDisk (qs "f.bin") dosLines))
       (qs "f.bin") = dosLines.
Proof. split; reflexivity. Qed.

(** C10, amended: for every text that is valid UTF-16 and does not begin
    with U+FEFF, and every path that can be written and then read, saving
    the text with the raw strategy succeeds and loading from the same path
    returns exactly the text: its UTF-8 bytes are written and decoded as
    they are, with no text-mode translation. *)
Theorem BIN_roundtrip (h : Host) (fs : FileSystem) (path text : QString) :
  writable fs path = true -> readable fs path = true ->
  isValidUtf16 text = true -> hd_error text <> Some ByteOrderMark ->
  fst (BINSaver_save h fs path text) = true
  /\ contents (snd (BINSaver_save h fs path text)) path = Some (toUtf8 text)
  /\ BINLoader_load h (snd (BINSaver_save h fs path text)) path = text.
Proof.
  intros Hw Hr Hv Hb. unfold BINSaver_save. rewrite Hw. cbn [fst snd].
  split; [reflexivity|]. split; [apply written_contents|].
  unfold BINLoader_load. rewrite (written_read _ _ _ Hr).
  apply fromUtf8_toUtf8; assumption.
Qed.

Lemma BIN_roundtrip_witness :
  BINLoader_load unixHost
    (snd (BINSaver_save unixHost openDisk (qs "f.bin") greeting))
    (qs "f.bin") = greeting.
Proof.
  apply (BIN_roundtrip unixHost openDisk (qs "f.bin") greeting);
    try reflexivity.
  discriminate.
Defined.

(** ** C9: the parts of the HTML saver *)

Lemma occurrences_skip (x : QChar) (pat u v : QString) :
  ~ In x u -> occurrences (x :: pat) (u ++ v) = occurrences (x :: pat) v.
Proof.
  induction u as [|c u IH]; intros H; [reflexivity|].
  cbn [app occurrences startsWith].
  destruct (N.eqb_spec c x) as [->|_].
  - exfalso. apply H. left. reflexivity.
  - cbn [andb]. apply IH. intros Hin. apply H. right. exact Hin.
Qed.

Lemma occurrences_paragraphs (parts : list QString) (v : QString) :
  occurrences [60; 112; 62]%N (flat_map paragraphElement parts ++ v)
  = (length parts + occurrences [60; 112; 62]%N v)%nat.
Proof.
  induction parts as [|p parts IH]; [reflexivity|].
  cbn [flat_map length]. unfold paragraphElement at 1.
  rewrite <- !app_assoc. simpl.
  rewrite (occurrences_skip 60%N) by apply toHtmlEscaped_no_LT.
  simpl. f_equal. exact IH.
Qed.

(** C9: the HTML saver writes one paragraph element for every non-empty
    part of the text between occurrences of "\n\n"; this is not the rule of
    [countParagraphs]: for "a\n \nb", whose middle line is one space,
    [countParagraphs] returns 2 and the saver writes one element. *)
Theorem HTMLSaver_parts_differ_from_paragraphs :
  (forall text,
      HTMLSaver_output text
      = qs "<html><body>" ++ [LF]
        ++ flat_map paragraphElement
             (splitString [LF; LF] SkipEmptyParts text)
        ++ [LF] ++ qs "</body></html>" ++ [LF])
  /\ (forall text,
         join [LF; LF] (splitString [LF; LF] KeepEmptyParts text) = text
         /\ splitString [LF; LF] SkipEmptyParts text
            = filter (fun p => negb (isEmpty p))
                (splitString [LF; LF] KeepEmptyParts text))
  /\ (forall text p,
         In p (splitString [LF; LF] SkipEmptyParts text) -> p <> [])
  /\ (forall text,
         occurrences (qs "<p>") (HTMLSaver_output text)
         = length (splitString [LF; LF] SkipEmptyParts text))
  /\ (let text := qs "a" ++ [LF] ++ qs " " ++ [LF] ++ qs "b" in
      countParagraphs text = 2%Z
      /\ splitString [LF; LF] SkipEmptyParts text = [text]
      /\ occurrences (qs "<p>") (HTMLSaver_output text) = 1%nat
      /\ HTMLSaver_output text
         = qs "<html><body>" ++ [LF] ++ qs "<p>a" ++ [LF] ++ qs " " ++ [LF]
           ++ qs "b</p>" ++ [LF; LF] ++ qs "</body></html>" ++ [LF]).
Proof.
  split; [reflexivity|].
  split; [intros text; split;
          [apply join_splitString; discriminate|reflexivity]|].
  split; [intros text p; apply splitString_skip_nonempty|].
  split; [|cbv zeta; repeat split].
  intros text.
  change (occurrences (qs "<p>") (HTMLSaver_output text))
    with (occurrences [60; 112; 62]%N
            (flat_map paragraphElement
               (splitString [LF; LF] SkipEmptyParts text)
             ++ ([LF] ++ qs "</body></html>" ++ [LF]))).
  rewrite occurrences_paragraphs. simpl. lia.
Qed.

Lemma HTMLSaver_parts_differ_from_paragraphs_witness :
  In (qs "a")
     (splitString [LF; LF] SkipEmptyParts (qs "a" ++ [LF; LF; LF] ++ qs "b"))
  /\ qs "a" <> [].
Proof.
  assert (H : In (qs "a")
                (splitString [LF; LF] SkipEmptyParts
                   (qs "a" ++ [LF; LF; LF] ++ qs "b")))
    by (left; reflexivity).
  split; [exact H|].
  destruct HTMLSaver_parts_differ_from_paragraphs as (_ & _ & Hne & _).
  exact (Hne _ _ H).
Defined.


(* ================================================================== *)
(** * Part III: further properties of the code                         *)
(* ================================================================== *)

(** ** The observer subject: [remove], the null pointer, [notifySaved] *)

Lemma remove_In (o x : Subject.IObserverPtr) (obs : Subject.t) :
  In x (Subject.remove o obs) <-> In x obs /\ x <> o.
Proof.
  unfold Subject.remove. rewrite filter_In, negb_true_iff, N.eqb_neq.
  tauto.
Qed.

Lemma remove_absent_observer (o : Subject.IObserverPtr) (obs : Subject.t) :
  ~ In o obs -> Subject.remove o obs = obs.
Proof.
  induction obs as [|x obs IH]; intros H; [reflexivity|].
  simpl. destruct (N.eqb_spec x o) as [->|_].
  - exfalso. apply H. left. reflexivity.
  - simpl. rewrite IH; [reflexivity|]. intros Hin. apply H. right. exact Hin.
Qed.

Lemma remove_app (o : Subject.IObserverPtr) (a b : Subject.t) :
  Subject.remove o (a ++ b) = Subject.remove o a ++ Subject.remove o b.
Proof. unfold Subject.remove. apply filter_app. Qed.

Lemma remove_NoDup (o : Subject.IObserverPtr) (obs : Subject.t) :
  NoDup obs -> NoDup (Subject.remove o obs).
Proof. unfold Subject.remove. apply NoDup_filter. Qed.

(** X1: [remove o] takes [o] out of the list wherever it stands and leaves
    the other observers in their order, so a later notification calls
    exactly the calls it made before, less those to [o]; removing an
    observer that is not registered changes nothing. *)
Theorem Subject_remove_unsubscribes (o : Subject.IObserverPtr)
  (obs : Subject.t) (n : Z) :
  ~ In o (Subject.remove o obs)
  /\ (forall x, In x (Subject.remove o obs) <-> In x obs /\ x <> o)
  /\ Subject.notifyDeleted n (Subject.remove o obs)
     = filter (fun call => negb (fst call =? o)%N)
         (Subject.notifyDeleted n obs)
  /\ (NoDup obs -> NoDup (Subject.remove o obs))
  /\ (~ In o obs -> Subject.remove o obs = obs).
Proof.
  split; [rewrite remove_In; tauto|].
  split; [intros x; apply remove_In|].
  split; [|split; [apply remove_NoDup|apply remove_absent_observer]].
  unfold Subject.notifyDeleted, Subject.remove.
  induction obs as [|x obs IH]; [reflexivity|].
  simpl. destruct (x =? o)%N; simpl; rewrite IH; reflexivity.
Qed.

Lemma Subject_remove_unsubscribes_witness :
  NoDup (Subject.remove 7%N [7%N; 9%N])
  /\ Subject.remove 5%N [7%N; 9%N] = [7%N; 9%N].
Proof.
  destruct (Subject_remove_unsubscribes 7%N [7%N; 9%N] 0)
    as (_ & _ & _ & H & _).
  destruct (Subject_remove_unsubscribes 5%N [7%N; 9%N] 0)
    as (_ & _ & _ & _ & H').
  split.
  - apply H. repeat constructor; simpl; intuition discriminate.
  - apply H'. simpl. intuition discriminate.
Defined.

(** X2: subscribing a new observer and unsubscribing it again gives the
    list back; unsubscribing an observer and subscribing it again moves it
    to the end of the order of delivery. *)
Theorem Subject_add_remove (o : Subject.IObserverPtr) (obs : Subject.t) :
  o <> 0%N ->
  (~ In o obs -> Subject.remove o (Subject.add o obs) = obs)
  /\ Subject.add o (Subject.remove o obs) = Subject.remove o obs ++ [o].
Proof.
  intros Ho. apply N.eqb_neq in Ho. split.
  - intros Hin. unfold Subject.add. rewrite Ho.
    destruct (Subject.contains obs o) eqn:E.
    + apply contains_In in E. contradiction.
    + cbn [negb andb]. rewrite remove_app, (remove_absent_observer _ _ Hin).
      simpl. rewrite N.eqb_refl. simpl. apply app_nil_r.
  - unfold Subject.add. rewrite Ho.
    destruct (Subject.contains (Subject.remove o obs) o) eqn:E;
      [|reflexivity].
    apply contains_In, remove_In in E. tauto.
Qed.

Lemma Subject_add_remove_witness :
  Subject.remove 9%N (Subject.add 9%N [7%N]) = [7%N]
  /\ Subject.add 7%N (Subject.remove 7%N [7%N; 9%N]) = [9%N; 7%N].
Proof.
  destruct (Subject_add_remove 9%N [7%N]) as (H & _); [discriminate|].
  destruct (Subject_add_remove 7%N [7%N; 9%N]) as (_ & H');
    [discriminate|].
  split; [apply H; simpl; intuition discriminate|exact H'].
Defined.

(** X3: the null pointer is never registered: adding it changes nothing,
    and a list without it and without duplicates stays so under [add] and
    [remove], so no notification ever calls through a null pointer. *)
Theorem Subject_never_holds_null (o : Subject.IObserverPtr)
  (obs : Subject.t) :
  Subject.add 0%N obs = obs
  /\ (NoDup obs /\ ~ In 0%N obs ->
      (NoDup (Subject.add o obs) /\ ~ In 0%N (Subject.add o obs))
      /\ (NoDup (Subject.remove o obs) /\ ~ In 0%N (Subject.remove o obs))
      /\ forall n call, In call (Subject.notifyDeleted n (Subject.add o obs))
                        -> fst call <> 0%N).
Proof.
  split; [reflexivity|]. intros [Hnd H0].
  assert (Hadd : ~ In 0%N (Subject.add o obs)).
  { unfold Subject.add. destruct (N.eqb_spec o 0) as [->|Ho]; [exact H0|].
    destruct (Subject.contains obs o); [exact H0|]. cbn [negb andb].
    rewrite in_app_iff. intros [H|[H|[]]]; [exact (H0 H)|congruence]. }
  split; [split; [apply add_NoDup, Hnd|exact Hadd]|].
  split; [split; [apply remove_NoDup, Hnd|rewrite remove_In; tauto]|].
  intros n call Hc. unfold Subject.notifyDeleted in Hc.
  apply in_map_iff in Hc. destruct Hc as (x & <- & Hx). simpl.
  intros ->. exact (Hadd Hx).
Qed.

Lemma Subject_never_holds_null_witness :
  NoDup (Subject.add 9%N [7%N]) /\ ~ In 0%N (Subject.add 9%N [7%N]).
Proof.
  destruct (Subject_never_holds_null 9%N [7%N]) as (_ & H).
  apply H. split.
  - repeat constructor. simpl. tauto.
  - simpl. intuition discriminate.
Defined.

(** X4: [notifySaved p] reaches the observers [notifyDeleted] reaches, in
    the same order, every call carrying [p]; an observer of a list without
    duplicates is called once. *)
Theorem Subject_notifySaved_delivery (p : QString) (n : Z)
  (obs : Subject.t) :
  map fst (Subject.notifySaved p obs) = obs
  /\ map fst (Subject.notifySaved p obs)
     = map fst (Subject.notifyDeleted n obs)
  /\ (forall call, In call (Subject.notifySaved p obs) ->
                   snd call = Subject.onAutoSaved p)
  /\ (forall o, NoDup obs -> In o obs ->
                count_occ N.eq_dec (map fst (Subject.notifySaved p obs)) o
                = 1%nat).
Proof.
  assert (H1 : map fst (Subject.notifySaved p obs) = obs).
  { unfold Subject.notifySaved. rewrite map_map. apply map_id. }
  assert (H2 : map fst (Subject.notifyDeleted n obs) = obs).
  { unfold Subject.notifyDeleted. rewrite map_map. apply map_id. }
  split; [exact H1|]. split; [congruence|]. split.
  - intros call Hc. unfold Subject.notifySaved in Hc.
    apply in_map_iff in Hc. destruct Hc as (x & <- & _). reflexivity.
  - intros o Hnd Hin. rewrite H1.
    apply (proj1 (NoDup_count_occ' N.eq_dec obs) Hnd o Hin).
Qed.

Lemma Subject_notifySaved_delivery_witness :
  count_occ N.eq_dec
    (map fst (Subject.notifySaved (qs "f.txt") [7%N; 9%N])) 9%N = 1%nat.
Proof.
  destruct (Subject_notifySaved_delivery (qs "f.txt") 0 [7%N; 9%N])
    as (_ & _ & _ & H).
  apply H.
  - repeat constructor; simpl; intuition discriminate.
  - simpl. auto.
Defined.

(** ** Loaders and savers: failures, other paths, repeated saves *)

Lemma eqb_refl (s : QString) : eqb s s = true.
Proof. apply eqb_eq. reflexivity. Qed.

Lemma written_other (fs : FileSystem) (path q : QString)
  (bytes : QByteArray) :
  q <> path -> contents (written fs path bytes) q = contents fs q.
Proof.
  intros H. simpl. apply eqb_neq in H. rewrite H. reflexivity.
Qed.

Lemma save_cases (f : IFileFactory) (h : Host) (fs : FileSystem)
  (path text : QString) :
  save f h fs path text
  = if writable fs path
    then (true, written fs path (savedBytes f h text))
    else (false, fs).
Proof.
  destruct (writable fs path) eqn:E;
    [apply save_writable|apply save_unwritable]; exact E.
Qed.

Lemma load_failure_is_empty_aux (f : IFileFactory) (h : Host)
  (fs : FileSystem) (path : QString) :
  openRead fs path = None -> load f h fs path = [].
Proof.
  intros E. destruct f; simpl;
    unfold TXTLoader_load, HTMLLoader_load, BINLoader_load; rewrite E;
    reflexivity.
Qed.

(** X5: a path that cannot be opened for reading, or that names no file,
    loads as the empty text with every strategy, as an empty file does:
    the caller cannot tell a failed open from an empty file. *)
Theorem load_failure_is_empty (f : IFileFactory) (h : Host)
  (fs : FileSystem) (path : QString) :
  openRead fs path = None \/ openRead fs path = Some [] ->
  load f h fs path = [].
Proof.
  intros [E|E]; destruct f; simpl;
    unfold TXTLoader_load, HTMLLoader_load, BINLoader_load; rewrite E;
    reflexivity.
Qed.

Lemma load_failure_is_empty_witness :
  load HTMLFactory unixHost readOnlyDisk (qs "missing.html") = []
  /\ load TXTFactory unixHost
       (written openDisk (qs "empty.txt") []) (qs "empty.txt") = [].
Proof.
  split; apply load_failure_is_empty; [left|right]; reflexivity.
Defined.

(** X6: a saver reports success exactly when the path can be opened for
    writing; when it cannot, no file changes; when it can, the file at the
    path holds the bytes of the format and every other file, and what can
    be read or written, is as before. *)
Theorem save_reports_and_touches_one_file (f : IFileFactory) (h : Host)
  (fs : FileSystem) (path text : QString) :
  fst (save f h fs path text) = writable fs path
  /\ (writable fs path = false -> snd (save f h fs path text) = fs)
  /\ (writable fs path = true ->
      contents (snd (save f h fs path text)) path
      = Some (savedBytes f h text))
  /\ (forall q, q <> path ->
                contents (snd (save f h fs path text)) q = contents fs q)
  /\ writable (snd (save f h fs path text)) = writable fs
  /\ readable (snd (save f h fs path text)) = readable fs.
Proof.
  rewrite save_cases. destruct (writable fs path); cbn [fst snd];
    repeat split; try discriminate; try reflexivity.
  - intros _. apply written_contents.
  - intros q Hq. apply written_other, Hq.
Qed.

Lemma save_reports_and_touches_one_file_witness :
  snd (save HTMLFactory unixHost readOnlyDisk (qs "f.html") oneTwo)
  = readOnlyDisk
  /\ contents (snd (save BINFactory unixHost openDisk (qs "f.bin") oneTwo))
       (qs "f.bin") = Some (toUtf8 oneTwo)
  /\ contents (snd (save BINFactory unixHost openDisk (qs "f.bin") oneTwo))
       (qs "g.bin") = None.
Proof.
  destruct (save_reports_and_touches_one_file HTMLFactory unixHost
              readOnlyDisk (qs "f.html") oneTwo) as (_ & H & _).
  destruct (save_reports_and_touches_one_file BINFactory unixHost
              openDisk (qs "f.bin") oneTwo) as (_ & _ & H1 & H2 & _).
  split; [apply H; reflexivity|].
  split; [apply H1; reflexivity|].
  apply (H2 (qs "g.bin")). discriminate.
Defined.

(** X7: a save replaces what an earlier save left at the path, whatever
    the strategies: after two saves the files are those of the second save
    alone.  So saving the same text twice leaves the file of one save. *)
Theorem save_last_writer_wins (f g : IFileFactory) (h : Host)
  (fs : FileSystem) (path t1 t2 q : QString) :
  contents (snd (save g h (snd (save f h fs path t1)) path t2)) q
  = contents (snd (save g h fs path t2)) q
  /\ fst (save g h (snd (save f h fs path t1)) path t2)
     = fst (save g h fs path t2).
Proof.
  rewrite !save_cases. destruct (writable fs path) eqn:E; cbn [fst snd].
  - cbn [writable written]. rewrite E. cbn [fst snd contents written].
    split; [|reflexivity]. destruct (eqb q path); reflexivity.
  - rewrite E. split; reflexivity.
Qed.

(** ** The Save action *)

Lemma actSave_cases (h : Host) (fname : QString) (e : Editor) (w : World) :
  isEmpty (savePath fname e) = false ->
  actSave_triggered h fname e w
  = (let e2 := {| txt := txt e; currentPath := savePath fname e;
                  currentFactory := Some (saveFactory fname e);
                  subject := subject e;
                  lastParagraphCount := lastParagraphCount e |} in
     if writable (files w) (savePath fname e)
     then (e2, {| files := written (files w) (savePath fname e)
                             (savedBytes (saveFactory fname e) h (txt e));
                  shown := shown w
                    ++ map Notified
                         (Subject.notifySaved (savePath fname e)
                            (subject e)) |})
     else (e2, {| files := files w;
                  shown := shown w ++ [Warning warningTitle warningText] |})).
Proof.
  unfold savePath, saveFactory, actSave_triggered.
  destruct (isEmpty (currentPath e)) eqn:Hp; intros Hn.
  - rewrite Hn. unfold ensureFactory, activeFactory.
    cbn [currentFactory currentPath txt subject lastParagraphCount].
    rewrite save_cases. destruct (writable (files w) fname); reflexivity.
  - unfold ensureFactory at 1 2 3 4 5 6. unfold activeFactory.
    destruct e as [t p cf sub l]. cbn in *.
    destruct cf as [f0|]; cbn; rewrite save_cases;
      destruct (writable (files w) p); reflexivity.
Qed.

(** X8: the Save action with no path and a cancelled dialog changes
    nothing at all; otherwise it saves the text of the widget to the path
    of the editor (or, without one, to the dialog's answer, with the
    factory of that answer's suffix) and remembers path and factory.  On
    success the file holds the bytes of the format and the observers are
    told the path; on failure only the warning is shown and no file
    changes - but the path chosen in the dialog is kept even then. *)
Theorem actSave_outcomes (h : Host) (fname : QString)
  (e : Editor) (w : World) :
  let e' := fst (actSave_triggered h fname e w) in
  let w' := snd (actSave_triggered h fname e w) in
  let path := savePath fname e in
  (isEmpty path = true -> e' = e /\ w' = w)
  /\ (isEmpty path = false ->
      currentPath e' = path
      /\ currentFactory e' = Some (saveFactory fname e)
      /\ (writable (files w) path = true ->
          contents (files w') path
          = Some (savedBytes (saveFactory fname e) h (txt e))
          /\ shown w' = shown w
               ++ map Notified (Subject.notifySaved path (subject e)))
      /\ (writable (files w) path = false ->
          files w' = files w
          /\ shown w' = shown w ++ [Warning warningTitle warningText]))
  /\ txt e' = txt e
  /\ subject e' = subject e
  /\ lastParagraphCount e' = lastParagraphCount e.
Proof.
  cbv zeta. destruct (isEmpty (savePath fname e)) eqn:Hn.
  - assert (E : actSave_triggered h fname e w = (e, w)).
    { unfold savePath in Hn. unfold actSave_triggered.
      destruct (isEmpty (currentPath e)) eqn:Hp; [|congruence].
      rewrite Hn. reflexivity. }
    rewrite E. cbn [fst snd]. repeat split; discriminate.
  - rewrite (actSave_cases _ _ _ _ Hn). cbv zeta.
    destruct (writable (files w) (savePath fname e)) eqn:Hw; cbn [fst snd];
      repeat split; try discriminate.
    apply written_contents.
Qed.

Lemma actSave_outcomes_witness :
  let e := initialEditor 1%N in
  (snd (actSave_triggered unixHost [] e {| files := openDisk; shown := [] |})
   = {| files := openDisk; shown := [] |})
  /\ currentPath
       (fst (actSave_triggered unixHost (qs "f.HTML") e
               {| files := readOnlyDisk; shown := [] |})) = qs "f.HTML"
  /\ shown
       (snd (actSave_triggered unixHost (qs "f.HTML") e
               {| files := readOnlyDisk; shown := [] |}))
     = [Warning warningTitle warningText]
  /\ shown
       (snd (actSave_triggered unixHost (qs "f.HTML") e
               {| files := openDisk; shown := [] |}))
     = [Notified (1%N, Subject.onAutoSaved (qs "f.HTML"))].
Proof.
  intros e.
  pose proof (actSave_outcomes unixHost [] e
                {| files := openDisk; shown := [] |}) as H0.
  pose proof (actSave_outcomes unixHost (qs "f.HTML") e
                {| files := readOnlyDisk; shown := [] |}) as H1.
  pose proof (actSave_outcomes unixHost (qs "f.HTML") e
                {| files := openDisk; shown := [] |}) as H2.
  cbv zeta in H0, H1, H2.
  destruct H0 as (H0 & _). destruct (H0 eq_refl) as (_ & H0').
  destruct H1 as (_ & H1 & _). destruct (H1 eq_refl) as (P1 & _ & _ & F1).
  destruct (F1 eq_refl) as (_ & F1').
  destruct H2 as (_ & H2 & _). destruct (H2 eq_refl) as (_ & _ & S2 & _).
  destruct (S2 eq_refl) as (_ & S2').
  repeat split; assumption.
Defined.

(** ** The [textChanged] handler and the Open action *)

Lemma textChanged_cases (h : Host) (e : Editor) (w : World) :
  textChanged h e w
  = (let c := countParagraphs (txt e) in
     if (c <? lastParagraphCount e)%Z then
       (setLastParagraphCount c e,
        show w (map Notified
                  (Subject.notifyDeleted (lastParagraphCount e - c)
                     (subject e))))
     else if (c >? lastParagraphCount e)%Z && negb (isEmpty (currentPath e))
     then
       (setLastParagraphCount c (ensureFactory e),
        {| files := snd (save (activeFactory e) h (files w)
                           (currentPath e) (txt e));
           shown := shown w
             ++ map Notified
                  (Subject.notifySaved (currentPath e) (subject e)) |})
     else (setLastParagraphCount c e, w)).
Proof.
  unfold textChanged. cbv zeta.
  destruct (countParagraphs (txt e) <? lastParagraphCount e)%Z;
    [reflexivity|].
  destruct (countParagraphs (txt e) >? lastParagraphCount e)%Z;
    [|reflexivity].
  destruct (isEmpty (currentPath e)); cbn [negb andb]; [reflexivity|].
  destruct (activeFactory_ensureFactory e) as (Ha & Hp & Hs & _).
  rewrite Ha, Hp, Hs.
  destruct (save (activeFactory e) h (files w) (currentPath e) (txt e)).
  reflexivity.
Qed.

Lemma existsb_isWarning_Notified (l : list (Subject.IObserverPtr * Subject.Call)) :
  existsb isWarning (map Notified l) = false.
Proof. induction l as [|x l IH]; [reflexivity|exact IH]. Qed.

Lemma save_other_path (f : IFileFactory) (h : Host) (fs : FileSystem)
  (path text q : QString) :
  q <> path -> contents (snd (save f h fs path text)) q = contents fs q.
Proof.
  intros Hq. rewrite save_cases. destruct (writable fs path); [|reflexivity].
  apply written_other, Hq.
Qed.

(** What one run of the handler leaves unchanged, for any editor. *)
Lemma textChanged_keeps (h : Host) (e : Editor) (w : World) :
  let e' := fst (textChanged h e w) in
  let w' := snd (textChanged h e w) in
  txt e' = txt e /\ currentPath e' = currentPath e
  /\ subject e' = subject e /\ activeFactory e' = activeFactory e
  /\ lastParagraphCount e' = countParagraphs (txt e)
  /\ (currentFactory e <> None -> currentFactory e' = currentFactory e)
  /\ (exists l, shown w' = shown w ++ l /\ existsb isWarning l = false)
  /\ (forall q, q <> currentPath e ->
                contents (files w') q = contents (files w) q).
Proof.
  cbv zeta. rewrite textChanged_cases. cbv zeta.
  destruct (activeFactory_ensureFactory e) as (Ha & Hp & Hs & Ht & _).
  destruct (countParagraphs (txt e) <? lastParagraphCount e)%Z;
    [|destruct ((countParagraphs (txt e) >? lastParagraphCount e)%Z
                && negb (isEmpty (currentPath e)))];
    cbn [fst snd setLastParagraphCount txt currentPath subject
         lastParagraphCount currentFactory show files shown];
    repeat split; try assumption; try reflexivity; try exact Ha.
  - eexists. split; [reflexivity|apply existsb_isWarning_Notified].
  - intros H. unfold ensureFactory.
    destruct (currentFactory e) eqn:E; [exact E|congruence].
  - eexists. split; [reflexivity|apply existsb_isWarning_Notified].
  - intros q Hq. apply save_other_path, Hq.
  - exists []. split; [rewrite app_nil_r; reflexivity|reflexivity].
Qed.

(** X9: whatever the edit, the [textChanged] handler never shows a
    warning, never writes to a file other than the one at the current
    path, and leaves the path, the observers and the strategy in use as
    they were; a second signal for the same text is silent: it writes
    nothing and shows nothing. *)
Theorem textChanged_never (h : Host) (newText : QString)
  (e : Editor) (w : World) :
  let e' := fst (onTextChanged h newText e w) in
  let w' := snd (onTextChanged h newText e w) in
  currentPath e' = currentPath e
  /\ subject e' = subject e
  /\ activeFactory e' = activeFactory e
  /\ (exists l, shown w' = shown w ++ l /\ existsb isWarning l = false)
  /\ (forall q, q <> currentPath e ->
                contents (files w') q = contents (files w) q)
  /\ snd (onTextChanged h newText e' w') = w'.
Proof.
  cbv zeta. unfold onTextChanged at 1 2 3 4 5.
  destruct (textChanged_keeps h (setText newText e) w)
    as (Ht & Hp & Hs & Ha & Hl & _ & Hsh & Hq).
  cbn [setText txt currentPath subject] in Ht, Hp, Hs, Hl, Hq.
  repeat split; try assumption.
  set (e' := fst (onTextChanged h newText e w)).
  set (w' := snd (onTextChanged h newText e w)).
  assert (Hl' : lastParagraphCount e' = countParagraphs newText) by exact Hl.
  unfold onTextChanged at 1. rewrite textChanged_cases. cbv zeta.
  cbn [setText txt lastParagraphCount]. rewrite Hl'.
  rewrite Z.gtb_ltb, !Z.ltb_irrefl. reflexivity.
Qed.

Lemma textChanged_never_witness :
  let w := {| files := openDisk; shown := [] |} in
  let e' := fst (onTextChanged unixHost oneTwo editorWithFile w) in
  let w' := snd (onTextChanged unixHost oneTwo editorWithFile w) in
  contents (files w') (qs "g.bin") = contents (files w) (qs "g.bin")
  /\ snd (onTextChanged unixHost oneTwo e' w') = w'.
Proof.
  intros w e' w'.
  pose proof (textChanged_never unixHost oneTwo editorWithFile w) as H.
  cbv zeta in H. destruct H as (_ & _ & _ & _ & Hq & Hagain).
  split; [|exact Hagain].
  apply Hq. intros E. vm_compute in E. discriminate E.
Defined.

Lemma actOpen_cases (h : Host) (shownAs : QString -> QString)
  (fname : QString) (e : Editor) (w : World) :
  isEmpty fname = false ->
  actOpen_triggered h shownAs fname e w
  = (let content := load (factoryForPath fname) h (files w) fname in
     let e1 := {| txt := shownAs content; currentPath := currentPath e;
                  currentFactory := Some (factoryForPath fname);
                  subject := subject e;
                  lastParagraphCount := lastParagraphCount e |} in
     ({| txt := txt (fst (textChanged h e1 w)); currentPath := fname;
         currentFactory := currentFactory (fst (textChanged h e1 w));
         subject := subject (fst (textChanged h e1 w));
         lastParagraphCount := countParagraphs content |},
      snd (textChanged h e1 w))).
Proof.
  intros H. unfold actOpen_triggered. rewrite H. cbv zeta.
  fold (factoryForPath fname).
  destruct (textChanged h _ w). reflexivity.
Qed.

(** X10: a cancelled Open changes nothing.  Otherwise the editor ends
    with the chosen path, the factory of its lower-cased suffix, the text
    the loader of that factory returns (as the widget shows it), the same
    observers, and the paragraph count of the loaded text; a path that
    cannot be read gives the empty text and the count 0, silently. *)
Theorem actOpen_result (h : Host) (shownAs : QString -> QString)
  (fname : QString) (e : Editor) (w : World) :
  let e' := fst (actOpen_triggered h shownAs fname e w) in
  let w' := snd (actOpen_triggered h shownAs fname e w) in
  let content := load (factoryForPath fname) h (files w) fname in
  (isEmpty fname = true -> e' = e /\ w' = w)
  /\ (isEmpty fname = false ->
      txt e' = shownAs content
      /\ currentPath e' = fname
      /\ currentFactory e' = Some (factoryForPath fname)
      /\ subject e' = subject e
      /\ lastParagraphCount e' = countParagraphs content
      /\ (openRead (files w) fname = None ->
          txt e' = shownAs [] /\ lastParagraphCount e' = 0%Z
          /\ existsb isWarning (shown w') = existsb isWarning (shown w))).
Proof.
  cbv zeta. split.
  - intros H. unfold actOpen_triggered. rewrite H. split; reflexivity.
  - intros H. rewrite (actOpen_cases _ _ _ _ _ H). cbv zeta. cbn [fst snd].
    match goal with |- context [textChanged h ?x w] => set (e1 := x) end.
    destruct (textChanged_keeps h e1 w)
      as (Ht & _ & Hs & _ & _ & Hf & (l & Hsh & Hl) & _).
    cbn [txt currentPath subject lastParagraphCount currentFactory].
    repeat split; try assumption.
    + apply Hf. discriminate.
    + rewrite Ht. cbn [e1 txt].
      rewrite (load_failure_is_empty_aux _ _ _ _ H0). reflexivity.
    + rewrite (load_failure_is_empty_aux _ _ _ _ H0). reflexivity.
    + rewrite Hsh, existsb_app, Hl, orb_false_r. reflexivity.
Qed.

Lemma actOpen_result_witness :
  let w := {| files := diskWithTwo; shown := [] |} in
  fst (actOpen_triggered unixHost (fun t => t) [] (initialEditor 1%N) w)
  = initialEditor 1%N
  /\ txt (fst (actOpen_triggered unixHost (fun t => t) (qs "g.bin")
                 (initialEditor 1%N) w)) = oneTwo
  /\ lastParagraphCount
       (fst (actOpen_triggered unixHost (fun t => t) (qs "none.txt")
               (initialEditor 1%N) w)) = 0%Z.
Proof.
  intros w.
  pose proof (actOpen_result unixHost (fun t => t) []
                (initialEditor 1%N) w) as H0.
  pose proof (actOpen_result unixHost (fun t => t) (qs "g.bin")
                (initialEditor 1%N) w) as H1.
  pose proof (actOpen_result unixHost (fun t => t) (qs "none.txt")
                (initialEditor 1%N) w) as H2.
  cbv zeta in H0, H1, H2.
  destruct H0 as (H0 & _). destruct (H0 eq_refl) as (H0' & _).
  destruct H1 as (_ & H1). destruct (H1 eq_refl) as (H1' & _).
  destruct H2 as (_ & H2).
  destruct (H2 eq_refl) as (_ & _ & _ & _ & _ & H2').
  destruct (H2' eq_refl) as (_ & H2'' & _).
  split; [exact H0'|]. split; [exact H1'|exact H2''].
Defined.

(** X11: [setPlainText] makes the [textChanged] handler run while the
    editor still has the path and the stored count of the file open before.
    So an Open never writes when no file was open before, and never writes
    to a path other than the previous one; but when a file was open and the
    text now shown has more paragraphs than the stored count, the saver of
    the NEW file's factory writes the NEW text to the PREVIOUS path and the
    observers are told that path was saved; when it has fewer, they are
    told of deleted paragraphs.  No warning is shown in any case. *)
Theorem actOpen_runs_textChanged_on_previous_path (h : Host)
  (shownAs : QString -> QString) (fname : QString)
  (e : Editor) (w : World) :
  isEmpty fname = false ->
  let w' := snd (actOpen_triggered h shownAs fname e w) in
  let text := shownAs (load (factoryForPath fname) h (files w) fname) in
  let c := countParagraphs text in
  let b := lastParagraphCount e in
  (isEmpty (currentPath e) = true -> files w' = files w)
  /\ ((c <= b)%Z -> files w' = files w)
  /\ ((c > b)%Z -> isEmpty (currentPath e) = false ->
      files w' = snd (save (factoryForPath fname) h (files w)
                        (currentPath e) text)
      /\ shown w' = shown w
           ++ map Notified (Subject.notifySaved (currentPath e) (subject e)))
  /\ ((c < b)%Z ->
      shown w' = shown w
        ++ map Notified (Subject.notifyDeleted (b - c) (subject e)))
  /\ (forall q, q <> currentPath e ->
                contents (files w') q = contents (files w) q)
  /\ (exists l, shown w' = shown w ++ l /\ existsb isWarning l = false).
Proof.
  intros H. cbv zeta. rewrite (actOpen_cases _ _ _ _ _ H). cbv zeta.
  cbn [snd].
  match goal with |- context [textChanged h ?x w] => set (e1 := x) end.
  destruct (textChanged_keeps h e1 w)
    as (_ & _ & _ & _ & _ & _ & Hsh & Hq).
  cbn [e1 currentPath] in Hq.
  split; [|split; [|split; [|split; [|split; [exact Hq|exact Hsh]]]]];
    rewrite textChanged_cases; cbv zeta;
    cbn [e1 txt lastParagraphCount currentPath subject];
    set (c := countParagraphs
                (shownAs (load (factoryForPath fname) h (files w) fname)));
    set (b := lastParagraphCount e).
  - intros Hp. rewrite Hp. cbn [negb]. rewrite andb_false_r.
    destruct (c <? b)%Z; reflexivity.
  - intros Hle. destruct (Z.ltb_spec c b); [reflexivity|].
    replace (c >? b)%Z with false; [reflexivity|].
    symmetry. rewrite Z.gtb_ltb. apply Z.ltb_ge. exact Hle.
  - intros Hgt Hp. rewrite Hp. cbn [negb].
    replace (c <? b)%Z with false by (symmetry; apply Z.ltb_ge; lia).
    replace (c >? b)%Z with true
      by (symmetry; rewrite Z.gtb_ltb; apply Z.ltb_lt; lia).
    cbn [andb fst snd files shown]. split; reflexivity.
  - intros Hlt. replace (c <? b)%Z with true
      by (symmetry; apply Z.ltb_lt; exact Hlt).
    reflexivity.
Qed.

Lemma actOpen_runs_textChanged_on_previous_path_witness :
  let w := {| files := diskWithTwo; shown := [] |} in
  let w' := snd (actOpen_triggered unixHost (fun t => t) (qs "g.bin")
                   editorWithFile w) in
  contents (files w') (qs "f.txt") = Some (toUtf8 oneTwo)
  /\ shown w' = [Notified (1%N, Subject.onAutoSaved (qs "f.txt"))].
Proof.
  intros w w'.
  pose proof (actOpen_runs_textChanged_on_previous_path unixHost
                (fun t => t) (qs "g.bin") editorWithFile w eq_refl) as H.
  cbv zeta in H. destruct H as (_ & _ & H & _).
  destruct H as (Hf & Hs); [reflexivity|reflexivity|].
  split; [|exact Hs].
  unfold w'. rewrite Hf. reflexivity.
Defined.

(** ** More on the paragraph counter *)

Lemma flagRuns_zero (fl : list bool) :
  flagRuns true fl = 0%nat <-> forallb (fun b => b) fl = true.
Proof.
  induction fl as [|x fl IH]; simpl; [tauto|].
  destruct x; simpl; [exact IH|]. split; [lia|discriminate].
Qed.

Lemma lineFlags_all_blank (s : QString) :
  forallb (fun b => b) (lineFlags s) = forallb isSpace s.
Proof.
  induction s as [|c s IH]; [reflexivity|].
  destruct (N.eq_dec c LF) as [->|Hc].
  - rewrite lineFlags_LF. simpl. exact IH.
  - rewrite (lineFlags_cons _ _ Hc). simpl. rewrite <- IH.
    pose proof (lineFlags_not_nil s) as Hne.
    destruct (lineFlags s) as [|b r]; [contradiction|].
    simpl. rewrite andb_assoc. reflexivity.
Qed.

Lemma flagRuns_le_textLines (fl : list bool) (b : bool) :
  (flagRuns b fl <= textLines fl)%nat.
Proof.
  revert b. induction fl as [|x fl IH]; intros b; simpl; [lia|].
  specialize (IH x). destruct b, x; simpl; lia.
Qed.

Lemma textLines_le_length (s : QString) :
  (textLines (lineFlags s) <= length s)%nat.
Proof.
  induction s as [|c s IH]; [simpl; lia|].
  destruct (N.eq_dec c LF) as [->|Hc].
  - rewrite lineFlags_LF. simpl. lia.
  - rewrite (lineFlags_cons _ _ Hc).
    pose proof (lineFlags_not_nil s) as Hne.
    destruct (lineFlags s) as [|b r]; [contradiction|].
    simpl in *. destruct (isSpace c), b; simpl; lia.
Qed.

(** X12: [countParagraphs] returns 0 exactly for the texts that consist of
    white space only (the empty text among them); every other text has at
    least one paragraph. *)
Theorem countParagraphs_zero_iff_blank (text : QString) :
  (countParagraphs text = 0%Z <-> forallb isSpace text = true)
  /\ (forallb isSpace text = false -> (1 <= countParagraphs text)%Z).
Proof.
  assert (H : countParagraphs text = 0%Z <-> forallb isSpace text = true).
  { rewrite countParagraphs_flags, <- lineFlags_all_blank, <- flagRuns_zero.
    lia. }
  split; [exact H|]. intros Hf.
  assert (countParagraphs text <> 0%Z) by (rewrite H; congruence).
  rewrite countParagraphs_flags in *. lia.
Qed.

Lemma countParagraphs_zero_iff_blank_witness :
  (1 <= countParagraphs (qs " x "))%Z.
Proof.
  apply (proj2 (countParagraphs_zero_iff_blank (qs " x "))). reflexivity.
Defined.

(** X13: the result of [countParagraphs] lies between 0 and the size of
    the text, so the [int] it is returned in holds it whenever the size of
    the text fits an [int]. *)
Theorem countParagraphs_bounds (text : QString) :
  (0 <= countParagraphs text <= Z.of_nat (length text))%Z.
Proof.
  rewrite countParagraphs_flags.
  pose proof (flagRuns_le_textLines (lineFlags text) true).
  pose proof (textLines_le_length text). lia.
Qed.

Lemma countParagraphs_snoc_space (c : QChar) (s : QString) :
  isSpace c = true -> countParagraphs (s ++ [c]) = countParagraphs s.
Proof.
  intros Hs. rewrite !countParagraphs_flags.
  destruct (lineFlags_trail_space c s Hs) as (k & ->).
  rewrite flagRuns_trail_blanks. reflexivity.
Qed.

(** X14: how the count composes: two texts joined by a blank line have
    the paragraphs of both; white space at either end, trimming and HTML
    escaping do not change the count. *)
Theorem countParagraphs_composes (s t : QString) (c : QChar) :
  countParagraphs (s ++ [LF; LF] ++ t)
  = (countParagraphs s + countParagraphs t)%Z
  /\ countParagraphs (trimmed s) = countParagraphs s
  /\ countParagraphs (toHtmlEscaped s) = countParagraphs s
  /\ (isSpace c = true ->
      countParagraphs (c :: s) = countParagraphs s
      /\ countParagraphs (s ++ [c]) = countParagraphs s).
Proof.
  split; [apply countParagraphs_blank_line_between|].
  split; [apply countParagraphs_trimmed|].
  split; [apply countParagraphs_escaped|].
  intros H. split;
    [apply countParagraphs_lead_space|apply countParagraphs_snoc_space];
    exact H.
Qed.

Lemma countParagraphs_composes_witness :
  countParagraphs (9%N :: qs "a") = countParagraphs (qs "a")
  /\ countParagraphs (qs "a" ++ [9%N]) = countParagraphs (qs "a").
Proof.
  apply (proj2 (proj2 (proj2 (countParagraphs_composes (qs "a") [] 9%N)))).
  reflexivity.
Defined.

(** ** More on the converter *)

Lemma scan_in_tag (g : QString) :
  forall st,
    inTag st = true -> ~ In GT g ->
    inTag (fold_left scanChar g st) = true
    /\ out (fold_left scanChar g st) = out st.
Proof.
  induction g as [|c g IH]; intros st Hst Hg; [split; [exact Hst|reflexivity]|].
  cbn [fold_left].
  assert (Hc : c <> GT) by (intros ->; apply Hg; left; reflexivity).
  assert (Hg' : ~ In GT g) by (intros H; apply Hg; right; exact H).
  assert (E : inTag (scanChar st c) = true /\ out (scanChar st c) = out st).
  { unfold scanChar. destruct (c =? LT)%N; [split; reflexivity|].
    rewrite Hst. destruct (N.eqb_spec c GT); [contradiction|].
    split; reflexivity. }
  destruct E as [E1 E2]. destruct (IH _ E1 Hg') as [I1 I2].
  split; [exact I1|]. rewrite I2. exact E2.
Qed.

(** X15: a '<' that no '>' follows swallows the rest of the input:
    whatever stands before it, the converter returns what it returns for
    the input cut at that '<'. *)
Theorem htmlToPlain_unclosed_tag (pre rest : QString) :
  ~ In GT rest ->
  stripTags (pre ++ LT :: rest) = stripTags pre
  /\ htmlToPlain (pre ++ LT :: rest) = htmlToPlain pre.
Proof.
  intros H.
  assert (E : stripTags (pre ++ LT :: rest) = stripTags pre).
  { unfold stripTags. rewrite fold_left_app. cbn [fold_left].
    set (st := fold_left scanChar pre scanStart).
    assert (E0 : scanChar st LT
                 = {| inTag := true; tag := []; out := out st |}).
    { unfold scanChar. rewrite N.eqb_refl. reflexivity. }
    rewrite E0.
    destruct (scan_in_tag rest {| inTag := true; tag := []; out := out st |}
                eq_refl H) as [_ E1].
    rewrite E1. reflexivity. }
  split; [exact E|]. unfold htmlToPlain. rewrite E. reflexivity.
Qed.

Lemma htmlToPlain_unclosed_tag_witness :
  htmlToPlain (qs "a<p>b<i c=1 d") = htmlToPlain (qs "a<p>b").
Proof.
  apply (htmlToPlain_unclosed_tag (qs "a<p>b") (qs "i c=1 d")).
  simpl. intuition discriminate.
Defined.

Lemma tagOutput_length (g : QString) :
  (length (tagOutput g) <= 1 + length g)%nat.
Proof.
  destruct g as [|c g]; [simpl; lia|].
  destruct (tagOutput_cases (c :: g)) as [H1 H2]. cbv zeta in H1, H2.
  destruct (startsWith (toLower (trimmed (c :: g))) (qs "br")
            || startsWith (toLower (trimmed (c :: g))) (qs "p")
            || startsWith (toLower (trimmed (c :: g))) (qs "/p"));
    [rewrite (H1 eq_refl)|rewrite (H2 eq_refl)]; simpl; lia.
Qed.

Lemma scanChar_length (st : Scan) (c : QChar) :
  (length (out (scanChar st c)) + pending (scanChar st c)
   <= length (out st) + pending st + 1)%nat.
Proof.
  unfold scanChar, pending. destruct (c =? LT)%N; [simpl; lia|].
  destruct (inTag st); [destruct (c =? GT)%N|]; cbn [inTag tag out].
  - rewrite length_app. pose proof (tagOutput_length (tag st)). lia.
  - rewrite length_app. simpl. lia.
  - rewrite length_app. simpl. lia.
Qed.

Lemma scan_length (u : QString) :
  forall st,
    (length (out (fold_left scanChar u st))
     + pending (fold_left scanChar u st)
     <= length (out st) + pending st + length u)%nat.
Proof.
  induction u as [|c u IH]; intros st; cbn [fold_left length]; [lia|].
  specialize (IH (scanChar st c)). pose proof (scanChar_length st c). lia.
Qed.

Lemma linesSize_split (s : QString) :
  linesSize (split LF s) = (length s + 1)%nat.
Proof.
  unfold linesSize. induction s as [|c s IH]; [reflexivity|].
  simpl. destruct (c =? LF)%N; simpl; [lia|].
  pose proof (split_not_nil LF s) as Hne.
  destruct (split LF s) as [|l0 rest]; [contradiction|]. simpl in *. lia.
Qed.

Lemma collapsePieces_length (lines : list QString) :
  forall k, (length (collapsePieces k lines) <= linesSize lines)%nat.
Proof.
  unfold linesSize.
  induction lines as [|ln lines IH]; intros k; simpl; [lia|].
  destruct (blankLine ln).
  - rewrite length_app. specialize (IH (k + 1)%Z).
    destruct (k + 1 <=? 2)%Z; simpl; lia.
  - rewrite !length_app. specialize (IH 0%Z). simpl. lia.
Qed.

Lemma collapsePieces_end (lines : list QString) :
  forall k, collapsePieces k lines = []
            \/ exists r, collapsePieces k lines = r ++ [LF].
Proof.
  induction lines as [|ln lines IH]; intros k; simpl; [left; reflexivity|].
  destruct (blankLine ln).
  - destruct (IH (k + 1)%Z) as [E|(r & E)]; rewrite E.
    + destruct (k + 1 <=? 2)%Z; [right; exists []; reflexivity|left; reflexivity].
    + right. eexists. rewrite app_assoc. reflexivity.
  - right. destruct (IH 0%Z) as [E|(r & E)]; rewrite E.
    + exists ln. reflexivity.
    + exists (ln ++ LF :: r). rewrite <- app_assoc. reflexivity.
Qed.

Lemma skipSpaces_length (s : QString) :
  (length (skipSpaces s) <= length s)%nat.
Proof.
  induction s as [|c s IH]; simpl; [lia|].
  destruct (isSpace c); simpl; lia.
Qed.

Lemma trimmed_length (s : QString) : (length (trimmed s) <= length s)%nat.
Proof.
  unfold trimmed. rewrite length_rev.
  pose proof (skipSpaces_length (rev (skipSpaces s))) as H.
  rewrite length_rev in H. pose proof (skipSpaces_length s). lia.
Qed.

(** X16: the converter never returns more than it was given: neither the
    text without its tags nor the final result is longer than the input
    (a tag of three characters or more yields at most two line feeds, and
    the line feed added after the last line is trimmed away). *)
Theorem htmlToPlain_not_longer (html : QString) :
  (length (stripTags html) <= length html)%nat
  /\ (length (htmlToPlain html) <= length html)%nat.
Proof.
  assert (H : (length (stripTags html) <= length html)%nat).
  { unfold stripTags. pose proof (scan_length html scanStart) as H.
    simpl in H. lia. }
  split; [exact H|]. unfold htmlToPlain. rewrite collapseLines_pieces.
  pose proof (collapsePieces_length (split LF (stripTags html)) 0) as Hl.
  rewrite linesSize_split in Hl.
  destruct (collapsePieces_end (split LF (stripTags html)) 0)
    as [E|(r & E)]; rewrite E in *.
  - simpl. lia.
  - rewrite trimmed_snoc_space by reflexivity.
    pose proof (trimmed_length r). rewrite length_app in Hl. simpl in Hl. lia.
Qed.

(** ** The suffix of a path and the factory chosen for it *)

Lemma afterLast_absent (c : QChar) (s : QString) :
  ~ In c s -> afterLast c s = None.
Proof.
  induction s as [|x s IH]; intros H; [reflexivity|].
  simpl. rewrite IH by (intros Hin; apply H; right; exact Hin).
  destruct (N.eqb_spec x c) as [->|_]; [|reflexivity].
  exfalso. apply H. left. reflexivity.
Qed.

Lemma afterLast_app (c : QChar) (s t : QString) :
  ~ In c t ->
  afterLast c (s ++ t)
  = match afterLast c s with Some r => Some (r ++ t) | None => None end.
Proof.
  intros H. induction s as [|x s IH]; [apply afterLast_absent, H|].
  simpl. rewrite IH. destruct (afterLast c s); [reflexivity|].
  destruct (x =? c)%N; reflexivity.
Qed.

Lemma afterLast_last (c : QChar) (s t : QString) :
  ~ In c t -> afterLast c (s ++ c :: t) = Some t.
Proof.
  intros H. induction s as [|x s IH]; simpl.
  - rewrite (afterLast_absent _ _ H), N.eqb_refl. reflexivity.
  - rewrite IH. reflexivity.
Qed.

Lemma suffix_of_extension (stem ext : QString) :
  ~ In DOT ext -> ~ In SLASH ext -> suffix (stem ++ DOT :: ext) = ext.
Proof.
  intros Hd Hs. unfold suffix, fileName.
  assert (Ht : ~ In SLASH (DOT :: ext)).
  { intros [E|H]; [discriminate|exact (Hs H)]. }
  fold SLASH. fold DOT. rewrite (afterLast_app SLASH stem _ Ht).
  destruct (afterLast SLASH stem);
    rewrite (afterLast_last DOT _ ext Hd); reflexivity.
Qed.

(** X17: the factory of a path depends only on what follows the last dot
    of its file name, read without regard to case: a path that ends in a
    dot and an extension free of dots and slashes gets the factory of the
    lower-cased extension, and a path whose file name has no dot gets the
    plain factory. *)
Theorem factoryForPath_by_suffix (stem ext dir name : QString) :
  (~ In DOT ext -> ~ In SLASH ext ->
   factoryForPath (stem ++ DOT :: ext) = factoryForExtension (toLower ext))
  /\ (~ In DOT name -> ~ In SLASH name ->
      factoryForPath (dir ++ SLASH :: name) = TXTFactory
      /\ factoryForPath name = TXTFactory).
Proof.
  split.
  - intros Hd Hs. unfold factoryForPath.
    rewrite (suffix_of_extension _ _ Hd Hs). reflexivity.
  - intros Hd Hs. unfold factoryForPath, suffix, fileName.
    fold SLASH. fold DOT.
    rewrite (afterLast_last SLASH dir name Hs), (afterLast_absent _ _ Hs),
      (afterLast_absent _ _ Hd).
    split; reflexivity.
Qed.

Lemma factoryForPath_by_suffix_witness :
  factoryForPath (qs "/home/u/notes.v2/Page.HTM" ) = HTMLFactory
  /\ factoryForPath (qs "/home/u/notes.v2" ++ SLASH :: qs "README")
     = TXTFactory.
Proof.
  destruct (factoryForPath_by_suffix (qs "/home/u/notes.v2/Page") (qs "HTM")
              (qs "/home/u/notes.v2") (qs "README")) as (H1 & H2).
  split.
  - apply H1; simpl; intuition discriminate.
  - apply H2; simpl; intuition discriminate.
Defined.

(** ** What the loaders return, and saving it back *)

Lemma valid_bmp (c : QChar) (s : QString) :
  (c < 0x10000)%N -> isSurrogate c = false ->
  isValidUtf16 (c :: s) = isValidUtf16 s.
Proof.
  intros Hc Hs. cbn [isValidUtf16].
  assert (Hn : ~ (0xD800 <= c <= 0xDFFF)%N).
  { intros H. apply (surrogate_bounds c) in H. congruence. }
  assert (Hh : isHighSurrogate c = false).
  { destruct (isHighSurrogate c) eqn:E; [|reflexivity].
    apply (surrogate_bounds c) in E. lia. }
  assert (Hl : isLowSurrogate c = false).
  { destruct (isLowSurrogate c) eqn:E; [|reflexivity].
    apply (surrogate_bounds c) in E. lia. }
  rewrite Hh, Hl. decide_tests. reflexivity.
Qed.

Lemma valid_units (u : N) (s : QString) :
  (u <= 0x10FFFF)%N -> isSurrogate u = false ->
  isValidUtf16 (utf16Units u ++ s) = isValidUtf16 s.
Proof.
  intros Hu Hs. unfold utf16Units. destruct (N.ltb_spec u 0x10000).
  - apply valid_bmp; assumption.
  - cbn [app isValidUtf16].
    assert (Hh : isHighSurrogate (0xD800 + (u - 0x10000) / 1024)%N = true)
      by (apply surrogate_bounds; split; divlia).
    assert (Hl : isLowSurrogate (0xDC00 + (u - 0x10000) mod 1024)%N = true)
      by (apply surrogate_bounds; split; divlia).
    rewrite Hh, Hl. reflexivity.
Qed.

Lemma decoded_valid (least u : N) (us s : QString) :
  decoded least u = Some us -> isValidUtf16 (us ++ s) = isValidUtf16 s.
Proof.
  unfold decoded.
  destruct ((least <=? u)%N && negb (isSurrogate u) && (u <=? 0x10FFFF)%N)
    eqn:E; [|discriminate].
  intros H. injection H as <-.
  apply andb_true_iff in E. destruct E as [E E3].
  apply andb_true_iff in E. destruct E as [_ E2].
  apply negb_true_iff in E2. apply N.leb_le in E3.
  apply valid_units; assumption.
Qed.

Lemma decodeUtf8_valid (n : nat) :
  forall bs, (length bs <= n)%nat -> isValidUtf16 (decodeUtf8 bs) = true.
Proof.
  induction n as [|n IH]; intros bs Hn.
  - destruct bs; [reflexivity|simpl in Hn; lia].
  - destruct bs as [|b rest]; [reflexivity|]. simpl in Hn.
    assert (IH' : forall r, (length r <= length rest)%nat ->
                            isValidUtf16 (decodeUtf8 r) = true)
      by (intros r Hr; apply IH; lia).
    assert (Hbad : isValidUtf16 (ReplacementCharacter :: decodeUtf8 rest)
                   = true)
      by (rewrite valid_bmp; [apply IH'; lia|reflexivity|reflexivity]).
    cbn [decodeUtf8].
    destruct (N.ltb_spec b 0x80).
    { rewrite valid_bmp; [apply IH'; lia|lia|].
      destruct (isSurrogate b) eqn:E; [|reflexivity].
      apply (surrogate_bounds b) in E. lia. }
    destruct (b <? 0xC2)%N; [exact Hbad|].
    destruct (b <? 0xE0)%N.
    { destruct rest as [|b1 r1]; [exact Hbad|].
      destruct (isContinuation b1); [|exact Hbad].
      destruct (decoded 0x80 ((b - 0xC0) * 64 + (b1 - 0x80))%N) eqn:E;
        [|exact Hbad].
      rewrite (decoded_valid _ _ _ _ E). apply IH'. simpl. lia. }
    destruct (b <? 0xF0)%N.
    { destruct rest as [|b1 [|b2 r2]]; try exact Hbad.
      destruct (isContinuation b1 && isContinuation b2); [|exact Hbad].
      destruct (decoded 0x800
                  ((b - 0xE0) * 4096 + (b1 - 0x80) * 64 + (b2 - 0x80))%N)
        eqn:E; [|exact Hbad].
      rewrite (decoded_valid _ _ _ _ E). apply IH'. simpl. lia. }
    destruct (b <? 0xF5)%N; [|exact Hbad].
    destruct rest as [|b1 [|b2 [|b3 r3]]]; try exact Hbad.
    destruct (isContinuation b1 && isContinuation b2 && isContinuation b3);
      [|exact Hbad].
    destruct (decoded 0x10000
                ((b - 0xF0) * 262144 + (b1 - 0x80) * 4096
                 + (b2 - 0x80) * 64 + (b3 - 0x80))%N) eqn:E; [|exact Hbad].
    rewrite (decoded_valid _ _ _ _ E). apply IH'. simpl. lia.
Qed.

Lemma fromUtf8_valid (bytes : QByteArray) :
  isValidUtf16 (fromUtf8 bytes) = true.
Proof.
  unfold fromUtf8. destruct (startsWith bytes utf8bom);
    eapply decodeUtf8_valid; reflexivity.
Qed.

Lemma remove_CR_valid (n : nat) :
  forall s, (length s <= n)%nat -> isValidUtf16 s = true ->
            isValidUtf16 (remove CR s) = true.
Proof.
  induction n as [|n IH]; intros s Hn Hv.
  - destruct s; [reflexivity|simpl in Hn; lia].
  - destruct s as [|c s]; [reflexivity|].
    cbn [isValidUtf16] in Hv. destruct (isHighSurrogate c) eqn:Hc.
    + destruct s as [|d s]; [discriminate|].
      apply andb_true_iff in Hv. destruct Hv as [Hd Hv].
      unfold remove. cbn [filter].
      destruct (N.eqb_spec c CR) as [->|_]; [discriminate|].
      destruct (N.eqb_spec d CR) as [->|_]; [discriminate|].
      cbn [negb isValidUtf16]. rewrite Hc, Hd.
      apply IH; [simpl in Hn; lia|exact Hv].
    + apply andb_true_iff in Hv. destruct Hv as [Hv Hrest].
      specialize (IH s ltac:(simpl in Hn; lia) Hrest).
      unfold remove. cbn [filter]. fold (remove CR s).
      destruct (c =? CR)%N; cbn [negb]; [exact IH|].
      cbn [isValidUtf16]. rewrite Hc, Hv, IH. reflexivity.
Qed.

Lemma remove_gone (c : QChar) (s : QString) : ~ In c (remove c s).
Proof.
  unfold remove. rewrite filter_In, negb_true_iff, N.eqb_neq. tauto.
Qed.

(** Saving a text that the plain text strategy can carry and loading it
    again (the steps of the proof of the amended C6, for a text at hand). *)
Lemma TXT_save_load (h : Host) (fs : FileSystem) (path text : QString) :
  writable fs path = true -> readable fs path = true ->
  isValidUtf16 text = true -> ~ In CR text ->
  hd_error text <> Some ByteOrderMark ->
  TXTLoader_load h (snd (TXTSaver_save h fs path text)) path = text.
Proof.
  intros Hw Hr Hv Hcr Hb. unfold TXTSaver_save. rewrite Hw. cbn [snd].
  unfold TXTLoader_load. rewrite (written_read _ _ _ Hr).
  unfold textStreamReadAll, textStreamWrite.
  set (sent := if crlf h then lineFeedToCRLF text else text).
  assert (Hsv : isValidUtf16 sent = true).
  { subst sent. destruct (crlf h); [|exact Hv].
    apply (lineFeedToCRLF_valid (length text)); auto. }
  assert (Hsb : hd_error sent <> Some ByteOrderMark).
  { subst sent. destruct (crlf h); [|exact Hb].
    apply lineFeedToCRLF_head, Hb. }
  rewrite (toUtf8_not_announced _ Hsv), (fromUtf8_toUtf8 _ Hsv Hsb).
  subst sent. destruct (crlf h).
  - rewrite remove_CR_lineFeedToCRLF. apply remove_absent, Hcr.
  - apply remove_absent, Hcr.
Qed.

(** X18: what a loader returned can be saved back without loss.  With the
    raw strategy, whatever bytes the file holds, saving the loaded text to
    a path and loading that path returns the same text (unless the text
    begins with U+FEFF, which needs a file with two byte order marks).
    The same holds with the plain text strategy for a file that does not
    announce UTF-16 or UTF-32. *)
Theorem loaded_text_saves_back (h : Host) (fs : FileSystem)
  (path target : QString) :
  writable fs target = true -> readable fs target = true ->
  (hd_error (BINLoader_load h fs path) <> Some ByteOrderMark ->
   BINLoader_load h
     (snd (BINSaver_save h fs target (BINLoader_load h fs path))) target
   = BINLoader_load h fs path)
  /\ ((forall bytes, openRead fs path = Some bytes ->
                     announcesUtf16or32 bytes = false) ->
      hd_error (TXTLoader_load h fs path) <> Some ByteOrderMark ->
      TXTLoader_load h
        (snd (TXTSaver_save h fs target (TXTLoader_load h fs path))) target
      = TXTLoader_load h fs path).
Proof.
  intros Hw Hr. split.
  - intros Hb. set (text := BINLoader_load h fs path) in *.
    assert (Hv : isValidUtf16 text = true).
    { subst text. unfold BINLoader_load.
      destruct (openRead fs path); [apply fromUtf8_valid|reflexivity]. }
    unfold BINSaver_save. rewrite Hw. cbn [snd].
    unfold BINLoader_load at 1. rewrite (written_read _ _ _ Hr).
    apply fromUtf8_toUtf8; assumption.
  - intros Ha Hb. set (text := TXTLoader_load h fs path) in *.
    assert (Hv : isValidUtf16 text = true /\ ~ In CR text).
    { subst text. unfold TXTLoader_load.
      destruct (openRead fs path) as [bytes|] eqn:E;
        [|split; [reflexivity|intros []]].
      unfold textStreamReadAll. rewrite (Ha bytes eq_refl).
      split; [|apply remove_gone].
      apply (remove_CR_valid (length (fromUtf8 bytes))); [lia|].
      apply fromUtf8_valid. }
    destruct Hv as [Hv Hcr]. apply TXT_save_load; assumption.
Qed.

Lemma loaded_text_saves_back_witness :
  BINLoader_load unixHost
    (snd (BINSaver_save unixHost diskWithTwo (qs "copy.bin")
            (BINLoader_load unixHost diskWithTwo (qs "g.bin"))))
    (qs "copy.bin")
  = BINLoader_load unixHost diskWithTwo (qs "g.bin")
  /\ TXTLoader_load unixHost
       (snd (TXTSaver_save unixHost diskWithTwo (qs "copy.txt")
               (TXTLoader_load unixHost diskWithTwo (qs "g.bin"))))
       (qs "copy.txt")
     = TXTLoader_load unixHost diskWithTwo (qs "g.bin").
Proof.
  destruct (loaded_text_saves_back unixHost diskWithTwo (qs "g.bin")
              (qs "copy.bin") eq_refl eq_refl) as (H1 & _).
  destruct (loaded_text_saves_back unixHost diskWithTwo (qs "g.bin")
              (qs "copy.txt") eq_refl eq_refl) as (_ & H2).
  split.
  - apply H1. discriminate.
  - apply H2; [|discriminate].
    intros bytes E. injection E as <-. reflexivity.
Defined.

(** ** The HTML strategy through the file *)

Lemma valid_app (n : nat) :
  forall a b, (length a <= n)%nat -> isValidUtf16 a = true ->
              isValidUtf16 (a ++ b) = isValidUtf16 b.
Proof.
  induction n as [|n IH]; intros a b Hn Hv.
  - destruct a; [reflexivity|simpl in Hn; lia].
  - destruct a as [|c a]; [reflexivity|].
    cbn [app isValidUtf16] in *. destruct (isHighSurrogate c).
    + destruct a as [|d a]; [discriminate|].
      apply andb_true_iff in Hv. destruct Hv as [Hd Hv].
      cbn [app]. rewrite Hd. apply IH; [simpl in Hn; lia|exact Hv].
    + apply andb_true_iff in Hv. destruct Hv as [Hv Hrest]. rewrite Hv.
      apply IH; [simpl in Hn; lia|exact Hrest].
Qed.

Lemma valid_append (a b : QString) :
  isValidUtf16 a = true -> isValidUtf16 (a ++ b) = isValidUtf16 b.
Proof. apply (valid_app (length a)). lia. Qed.

Lemma valid_before_LF (n : nat) :
  forall a b, (length a <= n)%nat -> isValidUtf16 (a ++ LF :: b) = true ->
              isValidUtf16 a = true /\ isValidUtf16 b = true.
Proof.
  induction n as [|n IH]; intros a b Hn Hv.
  - destruct a; [|simpl in Hn; lia]. split; [reflexivity|exact Hv].
  - destruct a as [|c a]; [split; [reflexivity|exact Hv]|].
    cbn [app isValidUtf16] in *. destruct (isHighSurrogate c).
    + destruct a as [|d a]; [discriminate|].
      cbn [app] in Hv. apply andb_true_iff in Hv. destruct Hv as [Hd Hv].
      rewrite Hd. apply IH; [simpl in Hn; lia|exact Hv].
    + apply andb_true_iff in Hv. destruct Hv as [Hv Hrest]. rewrite Hv.
      apply IH; [simpl in Hn; lia|exact Hrest].
Qed.

Lemma join_valid (parts : list QString) :
  isValidUtf16 (join [LF; LF] parts) = true ->
  Forall (fun p => isValidUtf16 p = true) parts.
Proof.
  induction parts as [|p parts IH]; intros H; [constructor|].
  destruct parts as [|q parts]; [repeat constructor; exact H|].
  rewrite join_cons in H by discriminate.
  destruct (valid_before_LF (length p) p _ (le_n _) H) as [Hp Hr].
  constructor; [exact Hp|]. apply IH. exact Hr.
Qed.

Lemma escapeChar_valid (c : QChar) (s : QString) :
  (c < 0x10000)%N -> isSurrogate c = false ->
  isValidUtf16 (escapeChar c ++ s) = isValidUtf16 s.
Proof.
  intros Hc Hs.
  destruct (escapeChar_cases c) as [[_ E]|[E|[E|[E|E]]]]; rewrite E;
    [apply valid_bmp; assumption| | | |]; apply valid_append; reflexivity.
Qed.

Lemma escapeChar_surrogate (c : QChar) :
  isSurrogate c = true -> escapeChar c = [c].
Proof.
  intros H. apply (surrogate_bounds c) in H. unfold escapeChar.
  unfold LT, GT, AMP, QUOT.
  repeat match goal with
    | |- context [(?x =? ?y)%N] => destruct (N.eqb_spec x y); [lia|]
    end.
  reflexivity.
Qed.

Lemma toHtmlEscaped_valid (n : nat) :
  forall s, (length s <= n)%nat -> isValidUtf16 s = true ->
            isValidUtf16 (toHtmlEscaped s) = true.
Proof.
  induction n as [|n IH]; intros s Hn Hv.
  - destruct s; [reflexivity|simpl in Hn; lia].
  - destruct s as [|c s]; [reflexivity|].
    cbn [isValidUtf16] in Hv. destruct (isHighSurrogate c) eqn:Hc.
    + destruct s as [|d s]; [discriminate|].
      apply andb_true_iff in Hv. destruct Hv as [Hd Hv].
      assert (Sc : isSurrogate c = true).
      { apply surrogate_bounds. apply (surrogate_bounds c) in Hc. lia. }
      assert (Sd : isSurrogate d = true).
      { apply surrogate_bounds. apply (surrogate_bounds d) in Hd. lia. }
      unfold toHtmlEscaped. cbn [flat_map].
      rewrite (escapeChar_surrogate c Sc), (escapeChar_surrogate d Sd).
      cbn [app isValidUtf16]. rewrite Hc, Hd.
      apply IH; [simpl in Hn; lia|exact Hv].
    + apply andb_true_iff in Hv. destruct Hv as [Hv Hrest].
      apply andb_true_iff in Hv. destruct Hv as [Hlt Hlow].
      apply N.ltb_lt in Hlt. apply negb_true_iff in Hlow.
      unfold toHtmlEscaped. cbn [flat_map]. fold (toHtmlEscaped s).
      rewrite escapeChar_valid;
        [apply IH; [simpl in Hn; lia|exact Hrest]|exact Hlt|].
      apply not_surrogate; assumption.
Qed.

Lemma paragraphs_valid (parts : list QString) (rest : QString) :
  Forall (fun p => isValidUtf16 p = true) parts ->
  isValidUtf16 (flat_map paragraphElement parts ++ rest)
  = isValidUtf16 rest.
Proof.
  induction 1 as [|p parts Hp _ IH]; [reflexivity|].
  cbn [flat_map]. unfold paragraphElement at 1. rewrite <- !app_assoc.
  rewrite (valid_append (qs "<p>")) by reflexivity.
  rewrite valid_append
    by (apply (toHtmlEscaped_valid (length p)); [lia|exact Hp]).
  rewrite (valid_append (qs "</p>")) by reflexivity.
  rewrite (valid_append [LF]) by reflexivity. exact IH.
Qed.

Lemma htmlDocument_valid (parts : list QString) :
  Forall (fun p => isValidUtf16 p = true) parts ->
  isValidUtf16 (htmlDocument parts) = true.
Proof.
  intros H. unfold htmlDocument.
  rewrite (valid_append (qs "<html><body>")) by reflexivity.
  rewrite (valid_append [LF]) by reflexivity.
  rewrite (paragraphs_valid _ _ H). reflexivity.
Qed.

Lemma remove_app_text (c : QChar) (a b : QString) :
  remove c (a ++ b) = remove c a ++ remove c b.
Proof. unfold remove. apply filter_app. Qed.

Lemma remove_utf8Bytes (u : N) :
  (u < 0x110000)%N ->
  remove CR (utf8Bytes u) = if (u =? CR)%N then [] else utf8Bytes u.
Proof.
  intros Hu. unfold utf8Bytes, remove.
  destruct (N.ltb_spec u 0x80); [|destruct (N.ltb_spec u 0x800);
    [|destruct (N.ltb_spec u 0x10000)]].
  - cbn [filter]. destruct (u =? CR)%N; reflexivity.
  - destruct (utf8Bytes_2 u ltac:(lia)) as (B0 & B1 & _).
    destruct (N.eqb_spec u CR) as [E|_]; [unfold CR in E; lia|].
    cbn [filter]. unfold CR.
    repeat match goal with
      | |- context [(?x =? 13)%N] => destruct (N.eqb_spec x 13); [lia|]
      end.
    reflexivity.
  - destruct (utf8Bytes_3 u ltac:(lia)) as (B0 & B1 & B2 & _).
    destruct (N.eqb_spec u CR) as [E|_]; [unfold CR in E; lia|].
    cbn [filter]. unfold CR.
    repeat match goal with
      | |- context [(?x =? 13)%N] => destruct (N.eqb_spec x 13); [lia|]
      end.
    reflexivity.
  - destruct (utf8Bytes_4 u ltac:(lia)) as (B0 & B1 & B2 & B3 & _).
    destruct (N.eqb_spec u CR) as [E|_]; [unfold CR in E; lia|].
    cbn [filter]. unfold CR.
    repeat match goal with
      | |- context [(?x =? 13)%N] => destruct (N.eqb_spec x 13); [lia|]
      end.
    reflexivity.
Qed.

Lemma remove_CR_toUtf8 (n : nat) :
  forall s, (length s <= n)%nat -> isValidUtf16 s = true ->
            remove CR (toUtf8 s) = toUtf8 (remove CR s).
Proof.
  induction n as [|n IH]; intros s Hn Hv.
  - destruct s; [reflexivity|simpl in Hn; lia].
  - destruct s as [|c s]; [reflexivity|].
    cbn [toUtf8 isValidUtf16] in *. destruct (isHighSurrogate c) eqn:Hc.
    + destruct s as [|d s]; [discriminate|].
      apply andb_true_iff in Hv. destruct Hv as [Hd Hv]. rewrite Hd.
      destruct (surrogate_pair c d Hc Hd) as (Hu & _ & _).
      rewrite remove_app_text, remove_utf8Bytes by lia.
      match goal with
      | |- context [(?x =? CR)%N] =>
          destruct (N.eqb_spec x CR) as [E|_]; [unfold CR in E; lia|]
      end.
      rewrite IH by (try exact Hv; simpl in Hn; lia).
      unfold remove at 2. cbn [filter].
      destruct (N.eqb_spec c CR) as [->|_]; [discriminate|].
      destruct (N.eqb_spec d CR) as [->|_]; [discriminate|].
      cbn [negb toUtf8]. rewrite Hc, Hd. reflexivity.
    + apply andb_true_iff in Hv. destruct Hv as [Hv Hrest].
      apply andb_true_iff in Hv. destruct Hv as [Hlt Hlow].
      apply N.ltb_lt in Hlt. apply negb_true_iff in Hlow. rewrite Hlow.
      rewrite remove_app_text, remove_utf8Bytes by lia.
      rewrite IH by (try exact Hrest; simpl in Hn; lia).
      change (remove CR (c :: s))
        with (if negb (c =? CR)%N then c :: remove CR s else remove CR s).
      destruct (c =? CR)%N; cbn [negb]; [reflexivity|].
      cbn [toUtf8]. rewrite Hc, Hlow. reflexivity.
Qed.

Lemma remove_CR_escaped (s : QString) :
  remove CR (toHtmlEscaped s) = toHtmlEscaped (remove CR s).
Proof.
  induction s as [|c s IH]; [reflexivity|].
  change (toHtmlEscaped (c :: s)) with (escapeChar c ++ toHtmlEscaped s).
  rewrite remove_app_text, IH.
  change (remove CR (c :: s))
    with (if negb (c =? CR)%N then c :: remove CR s else remove CR s).
  destruct (N.eqb_spec c CR) as [->|Hc]; [reflexivity|].
  cbn [negb].
  change (toHtmlEscaped (c :: remove CR s))
    with (escapeChar c ++ toHtmlEscaped (remove CR s)).
  f_equal.
  destruct (escapeChar_cases c) as [[_ E]|[E|[E|[E|E]]]]; rewrite E;
    try reflexivity.
  unfold remove. cbn [filter]. destruct (N.eqb_spec c CR); [contradiction|].
  reflexivity.
Qed.

Lemma remove_CR_paragraphs (parts : list QString) :
  remove CR (flat_map paragraphElement parts)
  = flat_map paragraphElement (map (remove CR) parts).
Proof.
  induction parts as [|p parts IH]; [reflexivity|].
  cbn [flat_map map]. rewrite remove_app_text, IH. f_equal.
  unfold paragraphElement. rewrite !remove_app_text, remove_CR_escaped.
  reflexivity.
Qed.

Lemma remove_CR_htmlDocument (parts : list QString) :
  remove CR (htmlDocument parts) = htmlDocument (map (remove CR) parts).
Proof.
  unfold htmlDocument. rewrite !remove_app_text, remove_CR_paragraphs.
  reflexivity.
Qed.

Lemma lineFlags_remove_CR (s : QString) :
  lineFlags (remove CR s) = lineFlags s.
Proof.
  induction s as [|c s IH]; [reflexivity|].
  unfold remove. cbn [filter]. fold (remove CR s).
  destruct (N.eqb_spec c CR) as [->|Hc]; cbn [negb].
  - rewrite lineFlags_space; [exact IH|reflexivity|discriminate].
  - destruct (N.eq_dec c LF) as [->|Hl].
    + rewrite !lineFlags_LF, IH. reflexivity.
    + rewrite !(lineFlags_cons _ _ Hl), IH. reflexivity.
Qed.

Lemma totalParagraphs_remove_CR (parts : list QString) :
  totalParagraphs (map (remove CR) parts) = totalParagraphs parts.
Proof.
  unfold totalParagraphs. induction parts as [|p parts IH]; [reflexivity|].
  cbn [map fold_right]. rewrite IH, !countParagraphs_flags,
    lineFlags_remove_CR. reflexivity.
Qed.

Lemma htmlDocument_count (parts : list QString) :
  countParagraphs (htmlToPlain (htmlDocument parts)) = totalParagraphs parts.
Proof.
  rewrite htmlToPlain_count.
  change (htmlDocument parts)
    with ((qs "<html><body>" ++ [LF])
          ++ flat_map paragraphElement parts
          ++ ([LF] ++ qs "</body></html>" ++ [LF])).
  rewrite (stripTags_app (qs "<html><body>" ++ [LF])) by reflexivity.
  rewrite (stripTags_app (flat_map paragraphElement _))
    by apply paragraphs_closed.
  rewrite paragraphs_stripped.
  change (stripTags (qs "<html><body>" ++ [LF])) with [LF].
  change (stripTags ([LF] ++ qs "</body></html>" ++ [LF])) with [LF; LF].
  cbn [app]. rewrite countParagraphs_lead_space by reflexivity.
  apply countParagraphs_paragraphTexts.
Qed.

(** X19: through the file too, the HTML strategy keeps the number of
    paragraphs: for every text that is valid UTF-16 and every path that can
    be written and then read, saving with [HTMLSaver] succeeds and loading
    with [HTMLLoader] returns a text with as many paragraphs, on every
    host, although the text itself may come back changed. *)
Theorem HTML_save_load_keeps_count (h : Host) (fs : FileSystem)
  (path text : QString) :
  writable fs path = true -> readable fs path = true ->
  isValidUtf16 text = true ->
  fst (HTMLSaver_save h fs path text) = true
  /\ countParagraphs
       (HTMLLoader_load h (snd (HTMLSaver_save h fs path text)) path)
     = countParagraphs text.
Proof.
  intros Hw Hr Hv. unfold HTMLSaver_save. rewrite Hw. cbn [fst snd].
  split; [reflexivity|].
  unfold HTMLLoader_load. rewrite (written_read _ _ _ Hr).
  unfold textModeBytes, textStreamWrite.
  set (parts := splitString [LF; LF] SkipEmptyParts text).
  change (HTMLSaver_output text) with (htmlDocument parts).
  assert (Hparts : Forall (fun p => isValidUtf16 p = true) parts).
  { assert (Hall : Forall (fun p => isValidUtf16 p = true)
                     (splitString [LF; LF] KeepEmptyParts text)).
    { apply join_valid. rewrite join_splitString by discriminate. exact Hv. }
    unfold parts. cbn [splitString]. rewrite Forall_forall in *.
    intros p Hp. apply filter_In in Hp. apply Hall, Hp. }
  pose proof (htmlDocument_valid parts Hparts) as Hdoc.
  set (sent := if crlf h then lineFeedToCRLF (htmlDocument parts)
               else htmlDocument parts).
  assert (Hsv : isValidUtf16 sent = true).
  { subst sent. destruct (crlf h); [|exact Hdoc].
    apply (lineFeedToCRLF_valid (length (htmlDocument parts))); auto. }
  assert (Hrm : remove CR sent = htmlDocument (map (remove CR) parts)).
  { subst sent. destruct (crlf h); rewrite ?remove_CR_lineFeedToCRLF;
      apply remove_CR_htmlDocument. }
  rewrite (remove_CR_toUtf8 (length sent) sent (le_n _) Hsv), Hrm.
  rewrite fromUtf8_toUtf8.
  - rewrite htmlDocument_count, totalParagraphs_remove_CR.
    symmetry. apply countParagraphs_parts.
  - rewrite <- Hrm. apply (remove_CR_valid (length sent)); [lia|exact Hsv].
  - discriminate.
Qed.

Lemma HTML_save_load_keeps_count_witness :
  countParagraphs
    (HTMLLoader_load windowsHost
       (snd (HTMLSaver_save windowsHost openDisk (qs "f.html") dosLines))
       (qs "f.html"))
  = countParagraphs dosLines.
Proof.
  apply (HTML_save_load_keeps_count windowsHost openDisk (qs "f.html")
           dosLines); reflexivity.
Defined.

(** ** Converting what was converted *)

Lemma trimmed_idempotent (s : QString) : trimmed (trimmed s) = trimmed s.
Proof.
  destruct (trimmed_ends s) as [E|((c & u & Ec & Hc) & (v & d & Ed & Hd))].
  - rewrite E. reflexivity.
  - rewrite Ec. unfold trimmed at 1. cbn [skipSpaces]. rewrite Hc.
    rewrite <- Ec, Ed, rev_app_distr. cbn [rev app skipSpaces].
    rewrite Hd. cbn [rev]. rewrite rev_involutive. reflexivity.
Qed.

Lemma blankLine_cons (c : QChar) (ln : QString) :
  blankLine (c :: ln) = isSpace c && blankLine ln.
Proof. rewrite !blankLine_forallb. reflexivity. Qed.

Lemma blankLine_snoc (c : QChar) (ln : QString) :
  blankLine (ln ++ [c]) = blankLine ln && isSpace c.
Proof.
  rewrite !blankLine_forallb, forallb_app. simpl.
  rewrite andb_true_r. reflexivity.
Qed.

Lemma collapsePieces_emptyIfBlank (lines : list QString) :
  (forall ln, In ln lines -> ~ In LF ln) ->
  forall k, Forall emptyIfBlank (split LF (collapsePieces k lines)).
Proof.
  induction lines as [|ln lines IH]; intros Hno k.
  - repeat constructor.
  - assert (Hrest : forall l, In l lines -> ~ In LF l)
      by (intros l Hl; apply Hno; right; exact Hl).
    cbn [collapsePieces]. destruct (blankLine ln) eqn:Hb.
    + destruct (k + 1 <=? 2)%Z; cbn [app]; [|apply IH, Hrest].
      rewrite split_sep_cons. constructor; [intros _; reflexivity|].
      apply IH, Hrest.
    + cbn [app]. rewrite split_app_sep.
      rewrite (split_no_sep _ _ (Hno ln (or_introl eq_refl))).
      constructor; [intros H; congruence|]. apply IH, Hrest.
Qed.

Lemma skipSpaces_emptyIfBlank (s : QString) :
  Forall emptyIfBlank (split LF s) ->
  Forall emptyIfBlank (split LF (skipSpaces s)).
Proof.
  induction s as [|c s IH]; intros H; [exact H|].
  cbn [skipSpaces]. destruct (isSpace c) eqn:Hc; [|exact H].
  apply IH. destruct (N.eq_dec c LF) as [->|Hl].
  - rewrite split_sep_cons in H. inversion H; assumption.
  - simpl in H. destruct (N.eqb_spec c LF); [contradiction|].
    pose proof (split_not_nil LF s) as Hne.
    destruct (split LF s) as [|l0 rest]; [contradiction|].
    inversion H as [|x y Hx Hy]; subst. constructor; [|exact Hy].
    intros Hb. assert (E : blankLine (c :: l0) = true)
      by (rewrite blankLine_cons, Hc, Hb; reflexivity).
    specialize (Hx E). discriminate.
Qed.

Lemma split_snoc (c : QChar) (s : QString) :
  c <> LF ->
  exists ls l, split LF s = ls ++ [l]
               /\ split LF (s ++ [c]) = ls ++ [l ++ [c]].
Proof.
  intros Hc. induction s as [|x s (ls & l & E1 & E2)].
  - exists [], []. simpl. destruct (N.eqb_spec c LF); [contradiction|].
    split; reflexivity.
  - simpl. rewrite E1, E2. destruct (x =? LF)%N.
    + exists ([] :: ls), l. split; reflexivity.
    + destruct ls as [|l0 ls]; simpl.
      * exists [], (x :: l). split; reflexivity.
      * exists ((x :: l0) :: ls), l. split; reflexivity.
Qed.

Lemma rev_skipSpaces_emptyIfBlank (r : QString) :
  Forall emptyIfBlank (split LF (rev r)) ->
  Forall emptyIfBlank (split LF (rev (skipSpaces r))).
Proof.
  induction r as [|c r IH]; intros H; [exact H|].
  cbn [skipSpaces]. destruct (isSpace c) eqn:Hc; [|exact H].
  apply IH. cbn [rev] in H. destruct (N.eq_dec c LF) as [->|Hl].
  - rewrite split_app_sep in H. apply Forall_app in H. tauto.
  - destruct (split_snoc c (rev r) Hl) as (ls & l & E1 & E2).
    rewrite E2 in H. rewrite E1. apply Forall_app in H.
    destruct H as [H1 H2]. apply Forall_app. split; [exact H1|].
    inversion H2 as [|x y Hx _]; subst. constructor; [|constructor].
    intros Hb. assert (E : blankLine (l ++ [c]) = true)
      by (rewrite blankLine_snoc, Hc, Hb; reflexivity).
    specialize (Hx E). destruct l; discriminate.
Qed.

Lemma trimmed_emptyIfBlank (s : QString) :
  Forall emptyIfBlank (split LF s) ->
  Forall emptyIfBlank (split LF (trimmed s)).
Proof.
  intros H. unfold trimmed. apply rev_skipSpaces_emptyIfBlank.
  rewrite rev_involutive. apply skipSpaces_emptyIfBlank, H.
Qed.

Lemma threeBlank_three (k : nat) (fl : list bool) :
  (2 <= k)%nat -> threeBlank (repeat true k ++ true :: fl) = true.
Proof.
  intros Hk. apply threeBlank_spec. exists (repeat true (k - 2)), fl.
  replace k with ((k - 2) + 2)%nat at 1 by lia.
  rewrite repeat_app, <- app_assoc. reflexivity.
Qed.

Lemma collapsePieces_unlines (lines : list QString) :
  Forall emptyIfBlank lines ->
  forall k,
    threeBlank (repeat true k ++ map blankLine lines) = false ->
    collapsePieces (Z.of_nat k) lines = unlines lines.
Proof.
  induction 1 as [|ln lines Hln _ IH]; intros k H3; [reflexivity|].
  cbn [collapsePieces unlines flat_map map] in *.
  destruct (blankLine ln) eqn:Hb.
  - rewrite (Hln Hb). destruct (Z.leb_spec (Z.of_nat k + 1) 2).
    + replace (Z.of_nat k + 1)%Z with (Z.of_nat (S k)) by lia.
      rewrite IH; [reflexivity|].
      rewrite repeat_snoc, <- app_assoc. exact H3.
    + rewrite threeBlank_three in H3 by lia. discriminate.
  - rewrite <- app_assoc. f_equal. f_equal. apply (IH 0%nat).
    change (repeat true k ++ false :: map blankLine lines)
      with (repeat true k ++ [false] ++ map blankLine lines) in H3.
    rewrite app_assoc in H3.
    apply (threeBlank_infix (repeat true k ++ [false]) _ []).
    rewrite app_nil_r. exact H3.
Qed.

Lemma unlines_split (s : QString) : unlines (split LF s) = s ++ [LF].
Proof.
  unfold unlines. induction s as [|c s IH]; [reflexivity|].
  simpl. destruct (c =? LF)%N eqn:E.
  - apply N.eqb_eq in E. subst. simpl. rewrite IH. reflexivity.
  - pose proof (split_not_nil LF s) as Hne.
    destruct (split LF s) as [|l0 rest]; [contradiction|].
    simpl in *. rewrite IH. reflexivity.
Qed.

(** X20: converting a converted text changes nothing: for every input,
    [htmlToPlain] applied to its own result returns that result. *)
Theorem htmlToPlain_idempotent (html : QString) :
  htmlToPlain (htmlToPlain html) = htmlToPlain html.
Proof.
  set (R := htmlToPlain html).
  assert (Hlines : Forall emptyIfBlank (split LF R)).
  { unfold R, htmlToPlain. apply trimmed_emptyIfBlank.
    rewrite collapseLines_pieces. apply collapsePieces_emptyIfBlank.
    intros ln. apply split_parts_no_sep. }
  assert (H3 : threeBlank (map blankLine (split LF R)) = false)
    by apply htmlToPlain_no_three_blank.
  unfold htmlToPlain at 1.
  rewrite (stripTags_text R (htmlToPlain_no_LT html)), collapseLines_pieces.
  pose proof (collapsePieces_unlines _ Hlines 0%nat H3) as E.
  change (Z.of_nat 0) with 0%Z in E. rewrite E, unlines_split.
  rewrite trimmed_snoc_space by reflexivity.
  unfold R, htmlToPlain. apply trimmed_idempotent.
Qed.
